(** * cpio-tools: the newc archive codec and the entry container

    A shallow embedding of [core/cpio_archive.py]: the entry record, the
    ordered container with its add / delete / modify operations, and the
    [open] / [write] codec of [CpioArchive].  Python integers are [Z], [bytes]
    are lists of [byte], [str] is [string] (a Python [str] is carried as its
    UTF-8 encoding), the [OrderedDict] is an association list in insertion
    order. *)

From Stdlib Require Import ZArith List String Ascii Strings.Byte Bool Lia.
Import ListNotations.
Local Open Scope Z_scope.

(** ** Outcomes of a call *)

Inductive exn : Type :=
| ValueError
| UnicodeDecodeError
| NotImplementedError
| SerializationError.

(** [OutOfFuel] is not a Python outcome: it marks a loop of the model that
    was given too few iterations. *)
Inductive result (A : Type) : Type :=
| Ok (a : A)
| Raise (e : exn)
| OutOfFuel.
Arguments Ok {A} a.
Arguments Raise {A} e.
Arguments OutOfFuel {A}.

Definition bind {A B : Type} (r : result A) (k : A -> result B) : result B :=
  match r with
  | Ok a => k a
  | Raise e => Raise e
  | OutOfFuel => OutOfFuel
  end.

Notation "x <- r ;; k" := (bind r (fun x => k))
  (at level 61, r at next level, right associativity).
Notation "' p <- r ;; k" := (bind r (fun x => let p := x in k))
  (at level 61, p pattern, r at next level, right associativity).

Definition raise_if_none {A : Type} (e : exn) (o : option A) : result A :=
  match o with
  | Some a => Ok a
  | None => Raise e
  end.

(** ** Python primitives the codec relies on *)

Definition bytes := list byte.

Definition ord (c : byte) : Z := Z.of_N (Byte.to_N c).

(** A [bytes] literal, [b'...'] in the source. *)
Definition B (s : string) : bytes := list_byte_of_string s.

(** [len(x)] as a Python integer. *)
Definition len {A : Type} (l : list A) : Z := Z.of_nat (List.length l).

(** [stream.read(n)] on the rest of a byte stream: the bytes read and the
    stream that remains.  A negative [n] reads to the end. *)
Definition read (n : Z) (stream : bytes) : bytes * bytes :=
  if n <? 0 then (stream, [])
  else (firstn (Z.to_nat n) stream, skipn (Z.to_nat n) stream).

Fixpoint startswith (s prefix : bytes) : bool :=
  match prefix, s with
  | [], _ => true
  | p :: prefix', c :: s' => Byte.eqb c p && startswith s' prefix'
  | _ :: _, [] => false
  end.

(** *** Formatting with [:08x] *)

Definition hexdigit (d : Z) : byte :=
  nth (Z.to_nat d) (B "0123456789abcdef") "0"%byte.

Fixpoint hex_digits (fuel : nat) (n : Z) : bytes :=
  match fuel with
  | O => []
  | S fuel' =>
      if n <? 16 then [hexdigit n]
      else hex_digits fuel' (n / 16) ++ [hexdigit (n mod 16)]
  end.

(** [format(n, 'x')] for [0 <= n]. *)
Definition hex (n : Z) : bytes := hex_digits (S (Z.to_nat (Z.log2 n))) n.

(** [f'{n:08x}'.encode()]: sign first, then zeros up to a width of 8, then
    the digits; a number that needs more than 8 characters gets them. *)
Definition format_08x (n : Z) : bytes :=
  let sign := if n <? 0 then ["-"%byte] else [] in
  let digits := hex (Z.abs n) in
  sign ++ repeat "0"%byte (8 - List.length sign - List.length digits) ++ digits.

(** *** [int(field, 16)] on a [bytes] value

    CPython's rules: surrounding ASCII whitespace is skipped, one sign is
    allowed, then an optional [0x] / [0X] (after which one underscore may
    stand), then hexadecimal digits in either case with single underscores
    between digits. *)

Definition digit_value (c : byte) : Z :=
  let n := ord c in
  if (48 <=? n) && (n <=? 57) then n - 48
  else if (97 <=? n) && (n <=? 122) then n - 87
  else if (65 <=? n) && (n <=? 90) then n - 55
  else 37.

Definition is_digit16 (c : byte) : bool := digit_value c <? 16.

Definition is_space (c : byte) : bool :=
  let n := ord c in (n =? 32) || ((9 <=? n) && (n <=? 13)).

Definition is_underscore (c : byte) : bool := Byte.eqb c "_"%byte.

Fixpoint lstrip (s : bytes) : bytes :=
  match s with
  | c :: t => if is_space c then lstrip t else s
  | [] => []
  end.

(** The longest run of digits and underscores at the head of [s]. *)
Fixpoint span_digits (s : bytes) : bytes * bytes :=
  match s with
  | c :: t =>
      if is_digit16 c || is_underscore c
      then let (run, rest) := span_digits t in (c :: run, rest)
      else ([], s)
  | [] => ([], [])
  end.

(** No two underscores in a row, and none at the end. *)
Fixpoint underscores_ok (prev_underscore : bool) (run : bytes) : bool :=
  match run with
  | [] => negb prev_underscore
  | c :: t =>
      if is_underscore c then negb prev_underscore && underscores_ok true t
      else underscores_ok false t
  end.

Definition digits_value (run : bytes) : Z :=
  fold_left (fun acc c => if is_underscore c then acc else acc * 16 + digit_value c)
            run 0.

Definition split_sign (s : bytes) : bool * bytes :=
  match s with
  | c :: t =>
      if Byte.eqb c "-"%byte then (true, t)
      else if Byte.eqb c "+"%byte then (false, t)
      else (false, s)
  | [] => (false, s)
  end.

Definition skip_prefix16 (s : bytes) : bytes :=
  match s with
  | z :: x :: t =>
      if Byte.eqb z "0"%byte && (Byte.eqb x "x"%byte || Byte.eqb x "X"%byte)
      then match t with
           | u :: t' => if is_underscore u then t' else t
           | [] => t
           end
      else s
  | _ => s
  end.

Definition int16 (field : bytes) : option Z :=
  let (negative, s) := split_sign (lstrip field) in
  let s := skip_prefix16 s in
  match s with
  | [] => None
  | c :: _ =>
      if is_underscore c then None
      else
        let (run, rest) := span_digits s in
        match run with
        | [] => None
        | _ :: _ =>
            if underscores_ok false run && forallb is_space rest
            then Some (if negative then - digits_value run else digits_value run)
            else None
        end
  end.

(** *** UTF-8, strict, as [bytes.decode()] checks it *)

Definition in_range (lo hi : Z) (c : byte) : bool := (lo <=? ord c) && (ord c <=? hi).

Definition is_cont (c : byte) : bool := in_range 128 191 c.

Fixpoint utf8_valid_fuel (fuel : nat) (s : bytes) : bool :=
  match fuel with
  | O => match s with [] => true | _ => false end
  | S fuel' =>
      match s with
      | [] => true
      | c0 :: s1 =>
          if ord c0 <? 128 then utf8_valid_fuel fuel' s1
          else if in_range 194 223 c0 then
            match s1 with
            | c1 :: s2 => is_cont c1 && utf8_valid_fuel fuel' s2
            | _ => false
            end
          else if in_range 224 239 c0 then
            match s1 with
            | c1 :: c2 :: s3 =>
                (if ord c0 =? 224 then in_range 160 191 c1
                 else if ord c0 =? 237 then in_range 128 159 c1
                 else is_cont c1)
                && is_cont c2 && utf8_valid_fuel fuel' s3
            | _ => false
            end
          else if in_range 240 244 c0 then
            match s1 with
            | c1 :: c2 :: c3 :: s4 =>
                (if ord c0 =? 240 then in_range 144 191 c1
                 else if ord c0 =? 244 then in_range 128 143 c1
                 else is_cont c1)
                && is_cont c2 && is_cont c3 && utf8_valid_fuel fuel' s4
            | _ => false
            end
          else false
      end
  end.

Definition utf8_valid (s : bytes) : bool := utf8_valid_fuel (List.length s) s.

(** [raw.decode()]: the [str] holds the bytes it was decoded from. *)
Definition decode (raw : bytes) : result string :=
  if utf8_valid raw then Ok (string_of_list_byte raw) else Raise UnicodeDecodeError.

(** [s.encode()]. *)
Definition encode (s : string) : bytes := list_byte_of_string s.

(** ** [pathlib.Path(archive_path).parent], as a string

    The pure POSIX path rules: a leading [/] (or exactly two) is the root,
    the rest is split at [/], empty and [.] components are dropped; the
    parent drops the last component, and a path with no root and no
    component prints as [.]. *)

Fixpoint split_sep (s : string) : list string :=
  match s with
  | EmptyString => [EmptyString]
  | String c rest =>
      if Ascii.eqb c "/" then EmptyString :: split_sep rest
      else match split_sep rest with
           | x :: xs => String c x :: xs
           | [] => [String c EmptyString]
           end
  end.

Definition splitroot (p : string) : string * string :=
  match p with
  | EmptyString => (EmptyString, p)
  | String c0 p1 =>
      if negb (Ascii.eqb c0 "/") then (EmptyString, p)
      else match p1 with
           | EmptyString => ("/"%string, p1)
           | String c1 p2 =>
               if negb (Ascii.eqb c1 "/") then ("/"%string, p1)
               else match p2 with
                    | EmptyString => ("//"%string, p2)
                    | String c2 _ =>
                        if Ascii.eqb c2 "/" then ("/"%string, p1)
                        else ("//"%string, p2)
                    end
           end
  end.

Definition is_component (x : string) : bool :=
  negb (String.eqb x "") && negb (String.eqb x ".").

Definition parse_path (p : string) : string * list string :=
  let (root, rel) := splitroot p in
  (root, filter is_component (split_sep rel)).

Definition format_path (root : string) (tail : list string) : string :=
  let s := (root ++ String.concat "/" tail)%string in
  if String.eqb s "" then "."%string else s.

(** [str(pathlib.Path(p).parent)] *)
Definition parent_str (p : string) : string :=
  let (root, tail) := parse_path p in
  format_path root (removelast tail).

(** ** The record header (pybinary's [BinarySerializable])

    Eleven byte-array fields of fixed width. *)

Record CpioNewcHeader : Type := {
  c_magic : bytes;
  c_ino : bytes;
  c_mode : bytes;
  c_uid : bytes;
  c_gid : bytes;
  c_nlink : bytes;
  c_mtime : bytes;
  c_filesize : bytes;
  c_dev : bytes;
  c_namesize : bytes;
  c_check : bytes
}.

Definition header_fields (h : CpioNewcHeader) : list bytes :=
  [c_magic h; c_ino h; c_mode h; c_uid h; c_gid h; c_nlink h; c_mtime h;
   c_filesize h; c_dev h; c_namesize h; c_check h].

Definition header_widths : list Z := [6; 8; 8; 8; 8; 8; 8; 8; 32; 8; 8].

(** [CpioNewcHeader.size()] *)
Definition header_size : Z := 110.

Fixpoint widths_ok (fields : list bytes) (widths : list Z) : bool :=
  match fields, widths with
  | [], [] => true
  | f :: fields', w :: widths' => (len f =? w) && widths_ok fields' widths'
  | _, _ => false
  end.

(** Modelled from the spec: pybinary is a dependency that is not part of the
    repository.  "Encode: ... fails if a value does not fit the field
    width"; the fields are written one after the other. *)
Definition serialize (h : CpioNewcHeader) : result bytes :=
  if widths_ok (header_fields h) header_widths
  then Ok (List.concat (header_fields h))
  else Raise SerializationError.

(** Modelled from the spec: pybinary is a dependency that is not part of the
    repository.  "Decode: split fixed-width slices"; a stream that ends
    inside the header is an "unreadable header". *)
Definition deserialize (stream : bytes) : result (CpioNewcHeader * bytes) :=
  let (raw, stream') := read header_size stream in
  if len raw <? header_size then Raise SerializationError
  else
    let (magic, raw) := read 6 raw in
    let (ino, raw) := read 8 raw in
    let (mode, raw) := read 8 raw in
    let (uid, raw) := read 8 raw in
    let (gid, raw) := read 8 raw in
    let (nlink, raw) := read 8 raw in
    let (mtime, raw) := read 8 raw in
    let (filesize, raw) := read 8 raw in
    let (dev, raw) := read 32 raw in
    let (namesize, raw) := read 8 raw in
    let (check, _) := read 8 raw in
    Ok ({| c_magic := magic; c_ino := ino; c_mode := mode; c_uid := uid;
           c_gid := gid; c_nlink := nlink; c_mtime := mtime;
           c_filesize := filesize; c_dev := dev; c_namesize := namesize;
           c_check := check |}, stream').

(** ** Entries *)

Module ModeMask.
Definition file_type : Z := 61440.    (* 0o170000 *)
Definition permissions : Z := 4095.   (* 0o7777 *)
End ModeMask.

Inductive FileTypes : Type :=
| directory | named_pipe | regular | symlink | block_device | char_device | socket.

(** [file_type.value] *)
Definition FileTypes_value (t : FileTypes) : Z :=
  match t with
  | directory => 16384      (* 0o40000 *)
  | named_pipe => 4096      (* 0o10000 *)
  | regular => 32768        (* 0o100000 *)
  | symlink => 40960        (* 0o120000 *)
  | block_device => 24576   (* 0o60000 *)
  | char_device => 8192     (* 0o20000 *)
  | socket => 49152         (* 0o140000 *)
  end.

Definition all_FileTypes : list FileTypes :=
  [directory; named_pipe; regular; symlink; block_device; char_device; socket].

(** [FileTypes(v)]: the member with that value, or [ValueError]. *)
Definition FileTypes_of (v : Z) : result FileTypes :=
  raise_if_none ValueError (find (fun t => FileTypes_value t =? v) all_FileTypes).

Definition FileTypes_eqb (t u : FileTypes) : bool :=
  FileTypes_value t =? FileTypes_value u.

(** A modification time is an [int] when it was parsed from a header and a
    [float] when it comes from [st_mtime]; a float is the quotient of two
    integers. *)
Inductive pytime : Type :=
| TimeInt (seconds : Z)
| TimeFloat (numerator : Z) (denominator : positive).

(** [int(t)]: truncation toward zero. *)
Definition int_of_time (t : pytime) : Z :=
  match t with
  | TimeInt z => z
  | TimeFloat n d => Z.quot n (Z.pos d)
  end.

Record CpioEntry : Type := {
  name : string;
  data : bytes;
  mode : Z;
  file_type : FileTypes;
  uid : Z;
  gid : Z;
  number_of_links : Z;
  modification_time : pytime;
  size : Z;
  has_crc : bool;
  inode : Z;
  dev : bytes
}.

Definition is_file (e : CpioEntry) : bool := FileTypes_eqb (file_type e) regular.

Definition set_file_type (e : CpioEntry) (t : FileTypes) : CpioEntry :=
  {| name := name e; data := data e; mode := mode e; file_type := t;
     uid := uid e; gid := gid e; number_of_links := number_of_links e;
     modification_time := modification_time e; size := size e;
     has_crc := has_crc e; inode := inode e; dev := dev e |}.

Definition set_data (e : CpioEntry) (d : bytes) : CpioEntry :=
  {| name := name e; data := d; mode := mode e; file_type := file_type e;
     uid := uid e; gid := gid e; number_of_links := number_of_links e;
     modification_time := modification_time e; size := size e;
     has_crc := has_crc e; inode := inode e; dev := dev e |}.

Definition set_size (e : CpioEntry) (n : Z) : CpioEntry :=
  {| name := name e; data := data e; mode := mode e; file_type := file_type e;
     uid := uid e; gid := gid e; number_of_links := number_of_links e;
     modification_time := modification_time e; size := n;
     has_crc := has_crc e; inode := inode e; dev := dev e |}.

Definition set_uid (e : CpioEntry) (n : Z) : CpioEntry :=
  {| name := name e; data := data e; mode := mode e; file_type := file_type e;
     uid := n; gid := gid e; number_of_links := number_of_links e;
     modification_time := modification_time e; size := size e;
     has_crc := has_crc e; inode := inode e; dev := dev e |}.

Definition set_gid (e : CpioEntry) (n : Z) : CpioEntry :=
  {| name := name e; data := data e; mode := mode e; file_type := file_type e;
     uid := uid e; gid := n; number_of_links := number_of_links e;
     modification_time := modification_time e; size := size e;
     has_crc := has_crc e; inode := inode e; dev := dev e |}.

Definition set_mode (e : CpioEntry) (n : Z) : CpioEntry :=
  {| name := name e; data := data e; mode := n; file_type := file_type e;
     uid := uid e; gid := gid e; number_of_links := number_of_links e;
     modification_time := modification_time e; size := size e;
     has_crc := has_crc e; inode := inode e; dev := dev e |}.

(** ** The container: an [OrderedDict] from names to entries, with the
    next free inode

    ([_inodes] is assigned once in [__init__] and never read; it is left
    out.) *)

Record CpioEntryContainer : Type := {
  items : list (string * CpioEntry);
  _inode_next : Z
}.

(** [CpioEntryContainer()] *)
Definition empty_container : CpioEntryContainer :=
  {| items := []; _inode_next := 0 |}.

Definition keys (self : CpioEntryContainer) : list string := map fst (items self).

Definition values (self : CpioEntryContainer) : list CpioEntry := map snd (items self).

Fixpoint assoc_get (key : string) (l : list (string * CpioEntry)) : option CpioEntry :=
  match l with
  | [] => None
  | (k, v) :: l' => if String.eqb k key then Some v else assoc_get key l'
  end.

(** Assignment keeps the place of a key that is already there and puts a
    new key last. *)
Fixpoint assoc_set (key : string) (value : CpioEntry) (l : list (string * CpioEntry))
  : list (string * CpioEntry) :=
  match l with
  | [] => [(key, value)]
  | (k, v) :: l' =>
      if String.eqb k key then (k, value) :: l' else (k, v) :: assoc_set key value l'
  end.

Fixpoint assoc_pop (key : string) (l : list (string * CpioEntry))
  : list (string * CpioEntry) :=
  match l with
  | [] => []
  | (k, v) :: l' => if String.eqb k key then l' else (k, v) :: assoc_pop key l'
  end.

(** [self[key]] *)
Definition getitem (key : string) (self : CpioEntryContainer) : option CpioEntry :=
  assoc_get key (items self).

(** [key in self] *)
Definition contains (key : string) (self : CpioEntryContainer) : bool :=
  match getitem key self with
  | Some _ => true
  | None => false
  end.

(** [self[key] = value], through [__setitem__]. *)
Definition setitem (key : string) (value : CpioEntry) (self : CpioEntryContainer)
  : CpioEntryContainer :=
  {| items := assoc_set key value (items self);
     _inode_next := Z.max (_inode_next self) (inode value + 1) |}.

(** [self.pop(key)] *)
Definition pop (key : string) (self : CpioEntryContainer) : CpioEntryContainer :=
  {| items := assoc_pop key (items self); _inode_next := _inode_next self |}.

(** Attribute assignments on the entry object held at [key]: the object
    stays where it is and [__setitem__] does not run. *)
Definition mutate (key : string) (value : CpioEntry) (self : CpioEntryContainer)
  : CpioEntryContainer :=
  {| items := assoc_set key value (items self); _inode_next := _inode_next self |}.

(** *** Log lines *)

Inductive level : Type := INFO | WARNING | ERROR | CRITICAL.

(** The pieces of an f-string: literal text, an interpolated string, an
    interpolated integer, and [oct(n)]. *)
Inductive fpart : Type :=
| Lit (s : string)
| Str (s : string)
| Int (n : Z)
| Oct (n : Z).

Definition log_record : Type := level * list fpart.

(** What a container operation leaves behind: the value returned or the
    exception raised, the container, and the lines logged. *)
Record outcome : Type := {
  returned : result bool;
  after : CpioEntryContainer;
  logged : list log_record
}.

(** *** What the filesystem answers about the local path given to
    [add_entry] *)

Record stat_result : Type := {
  st_mode : Z;
  st_uid : Z;
  st_gid : Z;
  st_nlink : Z;
  st_mtime : pytime
}.

Record local_path : Type := {
  path_str : string;            (* str(path) *)
  path_exists : bool;           (* path.exists(), follows symlinks *)
  path_lstat : stat_result;     (* path.stat(follow_symlinks=False) *)
  path_is_file : bool;          (* path.is_file(), follows symlinks *)
  path_is_symlink : bool;       (* path.is_symlink() *)
  path_is_dir : bool;           (* path.is_dir(), follows symlinks *)
  path_read_bytes : bytes;      (* path.read_bytes() *)
  path_readlink : string        (* str(path.readlink()) *)
}.

Definition zero_dev : bytes := repeat "0"%byte 32.

(** *** [add_entry] *)

Definition classify (path : local_path) (entry : CpioEntry) : result CpioEntry :=
  if path_is_file path then
    Ok (set_data (set_file_type entry regular) (path_read_bytes path))
  else if path_is_symlink path then
    Ok (set_data (set_file_type entry symlink) (encode (path_readlink path)))
  else if path_is_dir path then
    Ok (set_file_type entry directory)
  else Raise NotImplementedError.

Definition add_entry (path : local_path) (archive_path : string)
  (self : CpioEntryContainer) : outcome :=
  if negb (path_exists path) then
    {| returned := Ok false; after := self;
       logged := [(CRITICAL, [Lit "Failed to access file "; Str (path_str path);
                              Lit ". The file does not exist."])] |}
  else
    let parent := parent_str archive_path in
    if negb (contains parent self) then
      {| returned := Ok false; after := self;
         logged := [(CRITICAL, [Str parent; Lit " not in the archive. Failed to add ";
                                Str archive_path])] |}
    else
      let stat := path_lstat path in
      let '(inode, dev, log) :=
        match getitem archive_path self with
        | Some old =>
            (inode old, dev old, [(WARNING, [Lit "Overwriting "; Str archive_path])])
        | None => (_inode_next self, zero_dev, [])
        end in
      let entry :=
        {| name := archive_path; data := []; mode := st_mode stat;
           file_type := regular; uid := st_uid stat; gid := st_gid stat;
           number_of_links := st_nlink stat; modification_time := st_mtime stat;
           size := 0; has_crc := false; inode := inode; dev := dev |} in
      match classify path entry with
      | Ok entry =>
          let entry := set_size entry (len (data entry)) in
          {| returned := Ok true; after := setitem archive_path entry self;
             logged := log |}
      | Raise e => {| returned := Raise e; after := self; logged := log |}
      | OutOfFuel => {| returned := OutOfFuel; after := self; logged := log |}
      end.

(** *** [delete_entry] *)

Definition delete_entry (archive_path : string) (self : CpioEntryContainer) : outcome :=
  if contains archive_path self then
    {| returned := Ok true; after := pop archive_path self;
       logged := [(INFO, [Lit "Removing "; Str archive_path; Lit " from the archive"])] |}
  else
    {| returned := Ok false; after := self;
       logged := [(WARNING, [Str archive_path; Lit " not found in the archive"])] |}.

(** *** [modify_entry]

    [update_data] is the content that [update_data.read()] returns. *)

Definition modify_entry (archive_path : string)
  (update_uid update_gid update_mode : option Z) (update_data : option bytes)
  (self : CpioEntryContainer) : outcome :=
  match getitem archive_path self with
  | None =>
      {| returned := Ok false; after := self;
         logged := [(CRITICAL, [Str archive_path; Lit " not found in the archive"])] |}
  | Some entry =>
      let updated := false in
      let log := [(INFO, [Lit "Modifying "; Str archive_path; Lit " in the archive"])] in
      let '(entry, updated, log) :=
        match update_data with
        | Some new_data =>
            if FileTypes_eqb (file_type entry) regular then
              let entry := set_data entry new_data in
              let entry := set_size entry (len (data entry)) in
              (entry, true, log ++ [(INFO, [Str archive_path; Lit " : updated data"])])
            else
              (entry, updated,
               log ++ [(ERROR, [Lit "Failed to update data for "; Str archive_path;
                                Lit ". Reason: not a regular file."])])
        | None => (entry, updated, log)
        end in
      let '(entry, updated, log) :=
        match update_uid with
        | Some new_uid =>
            (set_uid entry new_uid, true,
             log ++ [(INFO, [Str archive_path; Lit " : [uid] "; Int (uid entry);
                             Lit " => "; Int new_uid])])
        | None => (entry, updated, log)
        end in
      let '(entry, updated, log) :=
        match update_gid with
        | Some new_gid =>
            (set_gid entry new_gid, true,
             log ++ [(INFO, [Str archive_path; Lit " : [gid] "; Int (gid entry);
                             Lit " => "; Int new_gid])])
        | None => (entry, updated, log)
        end in
      let '(entry, updated, log) :=
        match update_mode with
        | Some new_mode =>
            (set_mode entry new_mode, true,
             log ++ [(INFO, [Str archive_path; Lit " : [mode] "; Oct (mode entry);
                             Lit " => "; Oct new_mode])])
        | None => (entry, updated, log)
        end in
      {| returned := Ok updated; after := mutate archive_path entry self;
         logged := log |}
  end.

(** ** [CpioArchive] *)

Definition trailer_signature : string := "TRAILER!!!".

Definition padding_of (count : Z) : Z := (4 - (count mod 4)) mod 4.

(** [open]'s [__handle_padding]: the padding length and the stream after
    the padding was read. *)
Definition read_padding (data_stream : bytes) (data_read : Z) : Z * bytes :=
  let padding := padding_of data_read in
  let (_, data_stream) := read padding data_stream in
  (padding, data_stream).

Definition magic_has_crc (magic : bytes) : result bool :=
  if startswith magic (B "070701") then Ok false
  else if startswith magic (B "070702") then Ok true
  else Raise ValueError.

Definition int_field (field : bytes) : result Z := raise_if_none ValueError (int16 field).

(** The [while True] loop of [open].  Every turn reads a whole header, so a
    turn per byte of the stream, and one more, is always enough.  (The
    warning about a short name is a log line only and is left out.) *)
Fixpoint open_loop (fuel : nat) (file : bytes) (data_processed : Z)
  (entries : CpioEntryContainer) : result CpioEntryContainer :=
  match fuel with
  | O => OutOfFuel
  | S fuel' =>
      '(header, file) <- deserialize file ;;
      let data_processed := data_processed + header_size in
      has_crc <- magic_has_crc (c_magic header) ;;
      data_size <- int_field (c_filesize header) ;;
      name_size <- int_field (c_namesize header) ;;
      mode_raw <- int_field (c_mode header) ;;
      inode <- int_field (c_ino header) ;;
      uid <- int_field (c_uid header) ;;
      gid <- int_field (c_gid header) ;;
      nlinks <- int_field (c_nlink header) ;;
      mtime <- int_field (c_mtime header) ;;
      let (raw_name, file) := read name_size file in
      name <- decode (removelast raw_name) ;;
      let data_processed := data_processed + name_size in
      let (padding, file) := read_padding file data_processed in
      let data_processed := data_processed + padding in
      if String.eqb name trailer_signature then Ok entries
      else
        let (payload, file) := read data_size file in
        file_type <- FileTypes_of (Z.land mode_raw ModeMask.file_type) ;;
        let entries :=
          setitem name
            {| name := name; data := payload;
               mode := Z.land mode_raw ModeMask.permissions;
               file_type := file_type; uid := uid; gid := gid;
               number_of_links := nlinks; modification_time := TimeInt mtime;
               size := data_size; has_crc := has_crc; inode := inode;
               dev := c_dev header |} entries in
        if len payload <? data_size then Raise ValueError
        else
          let data_processed := data_processed + data_size in
          let (padding, file) := read_padding file data_processed in
          let data_processed := data_processed + padding in
          open_loop fuel' file data_processed entries
  end.

(** [CpioArchive.open] on the bytes of a stream. *)
Definition open (file : bytes) : result CpioEntryContainer :=
  open_loop (S (List.length file)) file 0 empty_container.

(** The state of [write]: what the stream holds and the running count. *)
Record writer : Type := {
  file : bytes;
  bytes_written : Z
}.

(** [file.write(chunk); bytes_written += count] *)
Definition put (chunk : bytes) (count : Z) (w : writer) : writer :=
  {| file := file w ++ chunk; bytes_written := bytes_written w + count |}.

(** [bytes_written += __handle_padding(file, bytes_written)] *)
Definition write_padding (w : writer) : writer :=
  let padding := padding_of (bytes_written w) in
  put (repeat "000"%byte (Z.to_nat padding)) padding w.

(** [sum(x for x in data)] *)
Definition byte_sum (payload : bytes) : Z := fold_right (fun x acc => ord x + acc) 0 payload.

Definition entry_header (entry : CpioEntry) : CpioNewcHeader :=
  let name_encoded := encode (name entry) ++ ["000"%byte] in
  {| c_magic := if has_crc entry then B "070702" else B "070701";
     c_ino := format_08x (inode entry);
     c_mode := format_08x (Z.lor (mode entry) (FileTypes_value (file_type entry)));
     c_uid := format_08x (uid entry);
     c_gid := format_08x (gid entry);
     c_nlink := format_08x (number_of_links entry);
     c_mtime := format_08x (int_of_time (modification_time entry));
     c_filesize := format_08x (len (data entry));
     c_dev := dev entry;
     c_namesize := format_08x (len name_encoded);
     c_check := if has_crc entry
                then format_08x (Z.land (byte_sum (data entry)) 4294967295)
                else B "00000000" |}.

(** The first half of a turn of the [for] loop: header, name, padding. *)
Definition write_name_block (header : CpioNewcHeader) (name_encoded : bytes)
  (w : writer) : result writer :=
  raw <- serialize header ;;
  let w := put raw header_size w in
  let w := put name_encoded (len name_encoded) w in
  Ok (write_padding w).

(** The second half: payload, padding. *)
Definition write_data_block (payload : bytes) (w : writer) : writer :=
  write_padding (put payload (len payload) w).

Definition write_entry (entry : CpioEntry) (w : writer) : result writer :=
  w <- write_name_block (entry_header entry) (encode (name entry) ++ ["000"%byte]) w ;;
  Ok (write_data_block (data entry) w).

Fixpoint write_entries (entries : list CpioEntry) (w : writer) : result writer :=
  match entries with
  | [] => Ok w
  | entry :: rest => w <- write_entry entry w ;; write_entries rest w
  end.

Definition trailer_header : CpioNewcHeader :=
  {| c_magic := B "070701";
     c_ino := B "00000000";
     c_mode := B "00000000";
     c_uid := B "00000000";
     c_gid := B "00000000";
     c_nlink := B "00000000";
     c_mtime := B "00000000";
     c_filesize := B "00000000";
     c_dev := zero_dev;
     c_namesize := format_08x (len (encode trailer_signature ++ ["000"%byte]));
     c_check := B "00000000" |}.

Definition write_trailer (w : writer) : result writer :=
  write_name_block trailer_header (encode trailer_signature ++ ["000"%byte]) w.

(** [bytes_written = 0] on a stream that is still empty. *)
Definition fresh_writer : writer := {| file := []; bytes_written := 0 |}.

(** [CpioArchive.write] into an empty stream: the final writer state. *)
Definition write_run (entries : CpioEntryContainer) : result writer :=
  w <- write_entries (values entries) fresh_writer ;;
  write_trailer w.

(** The bytes [CpioArchive.write] leaves in the stream. *)
Definition write (entries : CpioEntryContainer) : result bytes :=
  w <- write_run entries ;; Ok (file w).

(** The writer states at the end of each block, in the order [write]
    reaches them: after every header-and-name block and after every
    payload block. *)
Fixpoint write_marks (entries : list CpioEntry) (w : writer) : result (list writer) :=
  match entries with
  | [] => w' <- write_trailer w ;; Ok [w']
  | entry :: rest =>
      w1 <- write_name_block (entry_header entry)
              (encode (name entry) ++ ["000"%byte]) w ;;
      let w2 := write_data_block (data entry) w1 in
      marks <- write_marks rest w2 ;;
      Ok (w1 :: w2 :: marks)
  end.

(** ** Notions the statements below are written with *)

Definition is_lower_hex (c : byte) : bool :=
  existsb (Byte.eqb c) (B "0123456789abcdef").

Definition all_lower_hex (s : bytes) : Prop := Forall (fun c => is_lower_hex c = true) s.

(** The value of a run of digits read after [acc]. *)
Definition digits_from (acc : Z) (run : bytes) : Z :=
  fold_left (fun acc c => if is_underscore c then acc else acc * 16 + digit_value c)
            run acc.

(** The integers that [:08x] prints in exactly eight characters. *)
Definition fits_08x (z : Z) : Prop := - 16 ^ 7 < z < 16 ^ 8.

Definition digit_or_underscore (c : byte) : bool := is_digit16 c || is_underscore c.

(** A path with no [/] in it. *)
Fixpoint no_sep (s : string) : bool :=
  match s with
  | EmptyString => true
  | String c rest => negb (Ascii.eqb c "/") && no_sep rest
  end.

(** One proper path component: not empty, not [.], no [/]. *)
Definition plain_name (x : string) : bool := is_component x && no_sep x.

(** What a session does to its container: the assignment [entries[name] =
    entry] that [open] makes for every record, and the three edits. *)
Inductive operation : Type :=
| Insert (entry : CpioEntry)
| Add (path : local_path) (archive_path : string)
| Delete (archive_path : string)
| Modify (archive_path : string) (update_uid update_gid update_mode : option Z)
         (update_data : option bytes).

Definition apply_op (op : operation) (self : CpioEntryContainer) : CpioEntryContainer :=
  match op with
  | Insert entry => setitem (name entry) entry self
  | Add path archive_path => after (add_entry path archive_path self)
  | Delete archive_path => after (delete_entry archive_path self)
  | Modify archive_path u g m d => after (modify_entry archive_path u g m d self)
  end.

Definition run (ops : list operation) (self : CpioEntryContainer) : CpioEntryContainer :=
  fold_left (fun c op => apply_op op c) ops self.

(** Every inode that some entry carried at some point of the run,
    entries deleted since included. *)
Fixpoint inodes_ever (ops : list operation) (self : CpioEntryContainer) : list Z :=
  map inode (values self) ++
  match ops with
  | [] => []
  | op :: ops' => inodes_ever ops' (apply_op op self)
  end.

(** The containers a session can hold. *)
Definition reachable (self : CpioEntryContainer) : Prop :=
  exists ops, self = run ops empty_container.

(** [modify_entry] takes new data only for a regular file. *)
Definition data_accepted (entry : CpioEntry) (update_data : option bytes) : bool :=
  match update_data with
  | Some _ => FileTypes_eqb (file_type entry) regular
  | None => false
  end.

Definition provided {A : Type} (o : option A) : bool :=
  match o with
  | Some _ => true
  | None => false
  end.

Definition or_else {A : Type} (o : option A) (d : A) : A :=
  match o with
  | Some a => a
  | None => d
  end.

(** The entry [add_entry] builds before it looks at the kind of the
    local file. *)
Definition new_entry (path : local_path) (archive_path : string)
  (ino : Z) (device : bytes) : CpioEntry :=
  {| name := archive_path; data := []; mode := st_mode (path_lstat path);
     file_type := regular; uid := st_uid (path_lstat path);
     gid := st_gid (path_lstat path);
     number_of_links := st_nlink (path_lstat path);
     modification_time := st_mtime (path_lstat path);
     size := 0; has_crc := false; inode := ino; dev := device |}.

(** The inode and device field [add_entry] gives the entry at
    [archive_path]. *)
Definition allocation (archive_path : string) (self : CpioEntryContainer) : Z * bytes :=
  match getitem archive_path self with
  | Some old => (inode old, dev old)
  | None => (_inode_next self, zero_dev)
  end.

(** Every entry's inode is below the next free inode. *)
Definition inodes_below_next (self : CpioEntryContainer) : Prop :=
  Forall (fun e => inode e < _inode_next self) (values self).

(** The running count of [write] is the number of bytes in the stream. *)
Definition counted (w : writer) : Prop := bytes_written w = len (file w).

(** The stream of [w] ends on a 4-byte boundary. *)
Definition aligned (w : writer) : Prop := len (file w) mod 4 = 0.

(** The stream of [w] starts with the stream of [m]. *)
Definition extends (w m : writer) : Prop := exists tail, file w = file m ++ tail.

(** What every entry that [open] returns satisfies. *)
Record well_formed (e : CpioEntry) : Prop := {
  wf_name_utf8 : utf8_valid (encode (name e)) = true;
  wf_name_not_trailer : name e <> trailer_signature;
  wf_name_len : len (encode (name e)) + 1 < 16 ^ 8;
  wf_size : size e = len (data e);
  wf_data_len : len (data e) < 16 ^ 8;
  wf_mode : mode e = Z.land (mode e) ModeMask.permissions;
  wf_inode : fits_08x (inode e);
  wf_uid : fits_08x (uid e);
  wf_gid : fits_08x (gid e);
  wf_nlink : fits_08x (number_of_links e);
  wf_mtime : exists t, modification_time e = TimeInt t /\ fits_08x t;
  wf_dev : len (dev e) = 32
}.

(** What every container that [open] returns satisfies: the names are
    distinct and every entry sits under its own name. *)
Definition parsed (self : CpioEntryContainer) : Prop :=
  NoDup (keys self) /\
  Forall (fun kv => fst kv = name (snd kv) /\ well_formed (snd kv)) (items self).

(** Equality in the eleven fields of the round trip. *)
Definition same_fields (e e' : CpioEntry) : Prop :=
  name e' = name e /\ data e' = data e /\ mode e' = mode e /\
  file_type e' = file_type e /\ uid e' = uid e /\ gid e' = gid e /\
  number_of_links e' = number_of_links e /\
  modification_time e' = modification_time e /\ size e' = size e /\
  inode e' = inode e /\ dev e' = dev e.

Definition zeros (n : Z) : bytes := repeat "000"%byte (Z.to_nat n).

(** The bytes of the record of one entry, written at a 4-byte boundary. *)
Definition record_of (e : CpioEntry) : bytes :=
  let name_encoded := encode (name e) ++ ["000"%byte] in
  List.concat (header_fields (entry_header e)) ++
  name_encoded ++ zeros (padding_of (header_size + len name_encoded)) ++
  data e ++ zeros (padding_of (len (data e))).

(** The bytes of the trailer record, written at a 4-byte boundary. *)
Definition trailer_record : bytes :=
  let name_encoded := encode trailer_signature ++ ["000"%byte] in
  List.concat (header_fields trailer_header) ++
  name_encoded ++ zeros (padding_of (header_size + len name_encoded)).

(** [entries[name] = entry] for each entry in turn. *)
Definition insert_all (es : list CpioEntry) (self : CpioEntryContainer)
  : CpioEntryContainer :=
  fold_left (fun c e => setitem (name e) e c) es self.

(** "Returns whether at least one field was actually changed", read by
    values: the call returns [True] exactly when the container is not what
    it was. *)
Definition returns_whether_changed (archive_path : string)
  (update_uid update_gid update_mode : option Z) (update_data : option bytes)
  (self : CpioEntryContainer) : Prop :=
  let out := modify_entry archive_path update_uid update_gid update_mode update_data self in
  returned out = Ok true <-> after out <> self.

(** ** Sample inputs *)

Definition sample_stat : stat_result :=
  {| st_mode := 33188;   (* 0o100644 *)
     st_uid := 1000; st_gid := 1000; st_nlink := 1;
     st_mtime := TimeFloat 3400000001 2 |}.

(** A regular local file. *)
Definition sample_file : local_path :=
  {| path_str := "./hosts"; path_exists := true; path_lstat := sample_stat;
     path_is_file := true; path_is_symlink := false; path_is_dir := false;
     path_read_bytes := B "127.0.0.1 localhost"; path_readlink := "" |}.

Definition sample_dir_entry (n : string) (i : Z) : CpioEntry :=
  {| name := n; data := []; mode := 493; file_type := directory; uid := 0; gid := 0;
     number_of_links := 2; modification_time := TimeInt 1700000000; size := 0;
     has_crc := false; inode := i; dev := zero_dev |}.

Definition sample_file_entry (n : string) (i : Z) : CpioEntry :=
  {| name := n; data := B "127.0.0.1 localhost"; mode := 420; file_type := regular;
     uid := 0; gid := 0; number_of_links := 1;
     modification_time := TimeInt 1700000000; size := 19; has_crc := true;
     inode := i; dev := zero_dev |}.

(** A container with the directory [etc] and the file [etc/hosts]. *)
Definition sample_container : CpioEntryContainer :=
  run [Insert (sample_dir_entry "etc" 7); Insert (sample_file_entry "etc/hosts" 8)]
      empty_container.

(** The writer after the record of [etc/hosts] went into an empty stream. *)
Definition sample_written : writer :=
  match write_entry (sample_file_entry "etc/hosts" 8) fresh_writer with
  | Ok w => w
  | _ => fresh_writer
  end.

(** The writer after the whole of [sample_container] was written. *)
Definition sample_archive : writer :=
  match write_run sample_container with
  | Ok w => w
  | _ => fresh_writer
  end.

(** ** The command line ([cpio-tools.py]) *)

(** How a call ends: it returns, it raises, or [exit(code)] ends the
    process.  ([Unfinished] stands for [OutOfFuel]: never an outcome of the
    program.) *)
Inductive completion (A : Type) : Type :=
| Returns (a : A)
| Raises (e : exn)
| Exits (code : Z)
| Unfinished.
Arguments Returns {A} a.
Arguments Raises {A} e.
Arguments Exits {A} code.
Arguments Unfinished {A}.

(** The values of [Commands]: with [_generate_next_value_] returning the
    name, [enum.auto()] makes each member's value its own name. *)
Definition Commands : list string :=
  ["unpack"; "pack"; "list"; "add"; "delete"; "modify"]%string.

(** [Commands.has_value(value)] *)
Definition has_value (value : string) : bool := existsb (String.eqb value) Commands.

(** The [for] loop of [parse] and the [cmds.append(cmd)] after it.  [cmd]
    is [None] until the first command name is met. *)
Fixpoint parse_loop (args : list string) (cmds : list (option (list string)))
  (cmd : option (list string)) : completion (list (option (list string))) :=
  match args with
  | [] => Returns (cmds ++ [cmd])
  | arg :: rest =>
      if has_value arg then
        let cmds := match cmd with
                    | Some c => cmds ++ [Some c]
                    | None => cmds
                    end in
        parse_loop rest cmds (Some [arg])
      else
        match cmd with
        | Some c => parse_loop rest cmds (Some (c ++ [arg]))
        | None => Exits 1
        end
  end.

(** [parse(args)] *)
Definition parse (args : list string) : completion (list (option (list string))) :=
  parse_loop args [] None.

(** ** The session ([core/cpio.py]) *)

Module Cpio.

Record t : Type := {
  _path : string;
  _use_gzip : bool;
  _container : CpioEntryContainer;
  _verbose : bool;
  _changes_pending : bool;
  _save_to : option string
}.

Definition set_container (self : t) (c : CpioEntryContainer) : t :=
  {| _path := _path self; _use_gzip := _use_gzip self; _container := c;
     _verbose := _verbose self; _changes_pending := _changes_pending self;
     _save_to := _save_to self |}.

Definition set_changes_pending (self : t) (flag : bool) : t :=
  {| _path := _path self; _use_gzip := _use_gzip self; _container := _container self;
     _verbose := _verbose self; _changes_pending := flag;
     _save_to := _save_to self |}.

(** What a method leaves behind: the session, the files written with
    [write_bytes] in order, the lines logged, and how the call ended. *)
Record step : Type := {
  session : t;
  written : list (string * bytes);
  lines : list log_record;
  ended : completion unit
}.

Section Environment.

(** [gzip.compress(data, compresslevel=9)] *)
Variable compress : bytes -> bytes.

(** [gzip.decompress(data)] *)
Variable decompress : bytes -> result bytes.

(** [str(path.absolute())] *)
Variable absolute : string -> string.

(** [Cpio(path, use_gzip, verbose, save_to)], where [content] is what the
    file at [path] holds. *)
Definition init (path : string) (content : bytes) (use_gzip verbose : bool)
  (save_to : option string) : result t :=
  container <- (if negb use_gzip then open content
                else data <- decompress content ;; open data) ;;
  Ok {| _path := absolute path; _use_gzip := use_gzip; _container := container;
        _verbose := verbose; _changes_pending := false; _save_to := save_to |}.

Definition save_changes (output : option string) (self : t) : step :=
  match write (_container self) with
  | Ok data =>
      let data := if _use_gzip self then compress data else data in
      let save path :=
        {| session := set_changes_pending self false;
           written := [(path, data)];
           lines := [(INFO, [Lit "Saving changes to to "; Str path])];
           ended := Returns tt |} in
      match output with
      | Some o => save (absolute o)
      | None =>
          match _save_to self with
          | Some s => save (absolute s)
          | None =>
              if negb (_changes_pending self) then
                {| session := self; written := [];
                   lines := [(WARNING, [Lit "No modifications done. Skipping file write"])];
                   ended := Returns tt |}
              else save (_path self)
          end
      end
  | Raise e => {| session := self; written := []; lines := []; ended := Raises e |}
  | OutOfFuel => {| session := self; written := []; lines := []; ended := Unfinished |}
  end.

(** [__exit__] *)
Definition __exit__ (self : t) : step :=
  if _changes_pending self then save_changes None self
  else {| session := self; written := []; lines := []; ended := Returns tt |}.

(** The common end of the three edits: [if not <call>: exit(1)], then
    [self._changes_pending = True]. *)
Definition after_call (info : log_record) (out : outcome) (self : t) : step :=
  let self := set_container self (after out) in
  match returned out with
  | Ok true =>
      {| session := set_changes_pending self true; written := [];
         lines := info :: logged out; ended := Returns tt |}
  | Ok false =>
      {| session := self; written := []; lines := info :: logged out;
         ended := Exits 1 |}
  | Raise e =>
      {| session := self; written := []; lines := info :: logged out;
         ended := Raises e |}
  | OutOfFuel =>
      {| session := self; written := []; lines := info :: logged out;
         ended := Unfinished |}
  end.

Definition add_entry (file : local_path) (path : string) (self : t) : step :=
  after_call (INFO, [Lit "Add entry "; Str (path_str file); Lit " to ";
                     Str (_path self); Lit " ["; Str path; Lit "]"])
             (add_entry file path (_container self)) self.

Definition delete_entry (path : string) (self : t) : step :=
  after_call (INFO, [Lit "Delete entry "; Str path; Lit " to "; Str (_path self)])
             (delete_entry path (_container self)) self.

Definition modify_entry (path : string) (uid gid mode : option Z)
  (data : option bytes) (self : t) : step :=
  after_call (INFO, [Lit "Modify entry "; Str path; Lit " in "; Str (_path self)])
             (modify_entry path uid gid mode data (_container self)) self.

(** The editing commands of the main loop, with their arguments parsed. *)
Inductive task : Type :=
| TaskAdd (file : local_path) (path : string)
| TaskDelete (path : string)
| TaskModify (path : string) (uid gid mode : option Z) (data : option bytes).

Definition run_task (tk : task) (cpio : t) : step :=
  match tk with
  | TaskAdd file path => add_entry file path cpio
  | TaskDelete path => delete_entry path cpio
  | TaskModify path uid gid mode data => modify_entry path uid gid mode data cpio
  end.

(** [for task in command_line_tasks: ...]: the loop goes on while the
    calls return. *)
Fixpoint run_tasks (tasks : list task) (cpio : t) : step :=
  match tasks with
  | [] => {| session := cpio; written := []; lines := []; ended := Returns tt |}
  | tk :: rest =>
      let s := run_task tk cpio in
      match ended s with
      | Returns _ =>
          let s' := run_tasks rest (session s) in
          {| session := session s'; written := written s ++ written s';
             lines := lines s ++ lines s'; ended := ended s' |}
      | _ => s
      end
  end.

(** [with cpio: body]: [__exit__] runs however the body ended, and what
    ended the body goes on unless [__exit__] itself does not return. *)
Definition with_cpio (body : t -> step) (cpio : t) : step :=
  let s := body cpio in
  let x := __exit__ (session s) in
  {| session := session x; written := written s ++ written x;
     lines := lines s ++ lines x;
     ended := match ended x with
              | Returns _ => ended s
              | other => other
              end |}.

End Environment.

End Cpio.

(** The entries of a run keep [size] equal to the length of [data] when
    the entries inserted do. *)
Definition sized (e : CpioEntry) : Prop := size e = len (data e).

Definition op_sized (op : operation) : Prop :=
  match op with
  | Insert e => sized e
  | _ => True
  end.

(** The names are distinct and every entry sits under its own name. *)
Definition named (self : CpioEntryContainer) : Prop :=
  NoDup (keys self) /\ Forall (fun kv => fst kv = name (snd kv)) (items self).

(** The header block, the name and its padding of the record of [e]: the
    record without its payload. *)
Definition record_head (e : CpioEntry) : bytes :=
  let name_encoded := encode (name e) ++ ["000"%byte] in
  List.concat (header_fields (entry_header e)) ++
  name_encoded ++ zeros (padding_of (header_size + len name_encoded)).

(** The records of [es] one after the other. *)
Definition records (es : list CpioEntry) : bytes := List.concat (map record_of es).

(** A session on [sample_container], with nothing pending. *)
Definition sample_session : Cpio.t :=
  {| Cpio._path := "/boot/rootfs.cpio.gz"; Cpio._use_gzip := true;
     Cpio._container := sample_container; Cpio._verbose := false;
     Cpio._changes_pending := false; Cpio._save_to := None |}.

(** A delete, or a modify whose new values fit the header: uid and gid
    that [:08x] prints in eight characters, a mode within the permission
    bits, data shorter than 16^8 bytes. *)
Definition edit_in_range (op : operation) : Prop :=
  match op with
  | Delete _ => True
  | Modify _ u g m d =>
      fits_08x (or_else u 0) /\ fits_08x (or_else g 0) /\
      0 <= or_else m 0 <= ModeMask.permissions /\
      len (or_else d []) < 16 ^ 8
  | _ => False
  end.

(** One command of the command line: a command name, then arguments none
    of which is a command name. *)
Definition command_group (g : list string) : Prop :=
  exists c tail,
    g = c :: tail /\ has_value c = true /\
    forallb (fun x => negb (has_value x)) tail = true.

(** ** The checksum in the spec's words

    "The 32-bit truncated sum of payload bytes, zero-padded lowercase hex,
    8 characters", written without the definitions [write] is made of. *)

(** The arithmetic sum of the payload bytes: every byte counts as the
    number from 0 to 255 it stands for. *)
Definition arithmetic_sum (payload : bytes) : Z :=
  fold_left (fun acc x => acc + Z.of_N (Byte.to_N x)) payload 0.

(** The number a lowercase hexadecimal digit stands for: [0] to [9] are 0
    to 9, [a] to [f] are 10 to 15. *)
Definition lower_hex_digit (c : byte) : Z :=
  let n := Z.of_N (Byte.to_N c) in
  if (48 <=? n) && (n <=? 57) then n - 48
  else if (97 <=? n) && (n <=? 102) then n - 97 + 10
  else 0.

(** The number a string of lowercase hexadecimal digits writes, the most
    significant digit first. *)
Definition lower_hex_value (s : bytes) : Z :=
  fold_left (fun acc c => 16 * acc + lower_hex_digit c) s 0.

(** * Properties *)

(** ** The primitives on examples *)

Example format_08x_samples :
  format_08x 255 = B "000000ff" /\ format_08x (-1) = B "-0000001" /\
  format_08x 4294967296 = B "100000000".
Proof. repeat split; reflexivity. Qed.

Example int16_samples :
  int16 (B "000001A4") = Some 420 /\ int16 (B "-0000001") = Some (-1) /\
  int16 (B " 0x_1f  ") = Some 31 /\ int16 (B "1__00000") = None /\
  int16 (B "0000000g") = None /\ int16 (B "0x") = None /\ int16 [] = None.
Proof. repeat split; reflexivity. Qed.

Example parent_str_samples :
  map parent_str ["a/b/c"; "foo"; "/"; "//a"; "///a/b"; "a/b/."; ""; "a//b/"; "../a"]%string
  = ["a/b"; "."; "/"; "//"; "/a"; "a"; "."; "a"; ".."]%string.
Proof. reflexivity. Qed.

Example utf8_samples :
  decode (B "etc/hosts") = Ok "etc/hosts"%string /\
  decode ["195"%byte; "169"%byte] = Ok (String (ascii_of_nat 195) (String (ascii_of_nat 169) "")) /\
  decode ["192"%byte; "128"%byte] = Raise UnicodeDecodeError /\
  decode ["237"%byte; "160"%byte; "128"%byte] = Raise UnicodeDecodeError.
Proof. repeat split; reflexivity. Qed.

(** ** Lists, lengths and [read] *)

Lemma len_nonneg {A : Type} (l : list A) : 0 <= len l.
Proof. unfold len. lia. Qed.

Lemma len_app {A : Type} (l1 l2 : list A) : len (l1 ++ l2) = len l1 + len l2.
Proof. unfold len. rewrite length_app. lia. Qed.

Lemma len_repeat {A : Type} (x : A) (n : nat) : len (repeat x n) = Z.of_nat n.
Proof. unfold len. now rewrite repeat_length. Qed.

Lemma firstn_length_app {A : Type} (l1 l2 : list A) :
  firstn (List.length l1) (l1 ++ l2) = l1.
Proof. induction l1 as [|x l1 IH]; simpl; [now destruct l2 | now rewrite IH]. Qed.

Lemma skipn_length_app {A : Type} (l1 l2 : list A) :
  skipn (List.length l1) (l1 ++ l2) = l2.
Proof. induction l1 as [|x l1 IH]; simpl; auto. Qed.

Lemma read_app (n : Z) (chunk stream : bytes) :
  len chunk = n -> read n (chunk ++ stream) = (chunk, stream).
Proof.
  intros <-. unfold read, len.
  destruct (Z.ltb_spec (Z.of_nat (List.length chunk)) 0) as [H|_]; [lia|].
  now rewrite Nat2Z.id, firstn_length_app, skipn_length_app.
Qed.

Lemma read_split (n : Z) (stream chunk stream' : bytes) :
  read n stream = (chunk, stream') -> stream = chunk ++ stream'.
Proof.
  unfold read. destruct (n <? 0); intros [= <- <-].
  - now rewrite app_nil_r.
  - now rewrite firstn_skipn.
Qed.

Lemma read_len (n : Z) (stream chunk stream' : bytes) :
  read n stream = (chunk, stream') -> 0 <= n -> len chunk <= n.
Proof.
  unfold read. destruct (Z.ltb_spec n 0) as [H|H]; [lia|].
  intros [= <- <-] _. unfold len. rewrite length_firstn. lia.
Qed.

Lemma read_negative (n : Z) (stream chunk stream' : bytes) :
  read n stream = (chunk, stream') -> n < 0 -> stream' = [].
Proof.
  unfold read. destruct (Z.ltb_spec n 0) as [H|H]; [|lia]. now intros [= <- <-].
Qed.

Lemma read_nil (n : Z) : read n [] = ([], []).
Proof. unfold read. destruct (n <? 0); [easy|]. now rewrite firstn_nil, skipn_nil. Qed.

(** ** Hexadecimal digits *)

Lemma hexdigit_lower (d : Z) : 0 <= d < 16 -> is_lower_hex (hexdigit d) = true.
Proof.
  intros H.
  assert (E : d = 0 \/ d = 1 \/ d = 2 \/ d = 3 \/ d = 4 \/ d = 5 \/ d = 6 \/ d = 7 \/
              d = 8 \/ d = 9 \/ d = 10 \/ d = 11 \/ d = 12 \/ d = 13 \/ d = 14 \/
              d = 15) by lia.
  repeat (destruct E as [-> | E]; [reflexivity|]). now subst.
Qed.

Lemma hexdigit_value (d : Z) : 0 <= d < 16 -> digit_value (hexdigit d) = d.
Proof.
  intros H.
  assert (E : d = 0 \/ d = 1 \/ d = 2 \/ d = 3 \/ d = 4 \/ d = 5 \/ d = 6 \/ d = 7 \/
              d = 8 \/ d = 9 \/ d = 10 \/ d = 11 \/ d = 12 \/ d = 13 \/ d = 14 \/
              d = 15) by lia.
  repeat (destruct E as [-> | E]; [reflexivity|]). now subst.
Qed.

(** What the parser sees in a lowercase hexadecimal digit. *)
Lemma lower_hex_facts (c : byte) :
  is_lower_hex c = true ->
  is_digit16 c = true /\ is_underscore c = false /\ is_space c = false /\
  Byte.eqb c "-"%byte = false /\ Byte.eqb c "+"%byte = false /\
  Byte.eqb c "x"%byte = false /\ Byte.eqb c "X"%byte = false /\
  0 <= digit_value c < 16 /\ hexdigit (digit_value c) = c.
Proof.
  destruct c; intros H; try discriminate H; vm_compute; intuition congruence.
Qed.

Lemma digits_from_app (acc : Z) (r1 r2 : bytes) :
  digits_from acc (r1 ++ r2) = digits_from (digits_from acc r1) r2.
Proof. unfold digits_from. now rewrite fold_left_app. Qed.

Lemma hex_digits_spec (fuel : nat) :
  forall n, 0 <= n < 16 ^ Z.of_nat fuel -> (0 < fuel)%nat ->
    Forall (fun c => is_lower_hex c = true) (hex_digits fuel n) /\
    hex_digits fuel n <> [] /\
    (forall acc, digits_from acc (hex_digits fuel n)
                 = acc * 16 ^ len (hex_digits fuel n) + n) /\
    (forall k, 0 < k -> n < 16 ^ k -> len (hex_digits fuel n) <= k).
Proof.
  induction fuel as [|fuel IH]; intros n Hn Hpos.
  - lia.
  - cbn [hex_digits]. destruct (Z.ltb_spec n 16) as [Hlt|Hge].
    + repeat split.
      * constructor; [apply hexdigit_lower; lia | constructor].
      * discriminate.
      * intros acc. unfold digits_from. cbn [fold_left].
        pose proof (hexdigit_lower n ltac:(lia)) as Hl.
        apply lower_hex_facts in Hl. destruct Hl as (_ & -> & _).
        rewrite hexdigit_value by lia. unfold len. simpl. lia.
      * intros k Hk _. unfold len. simpl. lia.
    + assert (Hfuel : (0 < fuel)%nat).
      { destruct fuel; [simpl in Hn; lia | lia]. }
      assert (Hdiv : 0 <= n / 16 < 16 ^ Z.of_nat fuel).
      { split; [apply Z.div_pos; lia|].
        apply Z.div_lt_upper_bound; [lia|].
        rewrite Nat2Z.inj_succ, Z.pow_succ_r in Hn by lia. lia. }
      destruct (IH _ Hdiv Hfuel) as (Hall & Hne & Hval & Hlen).
      pose proof (Z.mod_pos_bound n 16 ltac:(lia)) as Hmod.
      repeat split.
      * apply Forall_app. split; [exact Hall|].
        constructor; [apply hexdigit_lower; lia | constructor].
      * intros E. apply app_eq_nil in E. destruct E as [_ E]. discriminate E.
      * intros acc. rewrite digits_from_app, Hval.
        unfold digits_from at 1. cbn [fold_left].
        pose proof (hexdigit_lower (n mod 16) ltac:(lia)) as Hl.
        apply lower_hex_facts in Hl. destruct Hl as (_ & -> & _).
        rewrite hexdigit_value by lia.
        rewrite len_app. change (len [hexdigit (n mod 16)]) with 1.
        rewrite Z.pow_add_r by (try apply len_nonneg; lia).
        pose proof (Z.div_mod n 16 ltac:(lia)). change (16 ^ 1) with 16. lia.
      * intros k Hk Hnk. rewrite len_app. change (len [hexdigit (n mod 16)]) with 1.
        assert (1 < k).
        { destruct (Z.eq_dec k 1) as [->|]; [simpl in Hnk; lia | lia]. }
        assert (n / 16 < 16 ^ (k - 1)).
        { apply Z.div_lt_upper_bound; [lia|].
          replace k with (Z.succ (k - 1)) in Hnk by lia.
          rewrite Z.pow_succ_r in Hnk by lia. lia. }
        specialize (Hlen (k - 1) ltac:(lia) ltac:(assumption)). lia.
Qed.

Lemma hex_fuel (n : Z) : 0 <= n -> 0 <= n < 16 ^ Z.of_nat (S (Z.to_nat (Z.log2 n))).
Proof.
  intros Hn. split; [assumption|].
  rewrite Nat2Z.inj_succ, Z2Nat.id by apply Z.log2_nonneg.
  destruct (Z.eq_dec n 0) as [->|Hne].
  - simpl. lia.
  - pose proof (Z.log2_spec n ltac:(lia)) as [_ Hup].
    eapply Z.lt_le_trans; [exact Hup|].
    pose proof (Z.log2_nonneg n).
    replace 16 with (2 ^ 4) by reflexivity.
    rewrite <- Z.pow_mul_r by lia.
    apply Z.pow_le_mono_r; lia.
Qed.

Lemma hex_spec (n : Z) :
  0 <= n ->
  Forall (fun c => is_lower_hex c = true) (hex n) /\ hex n <> [] /\
  digits_from 0 (hex n) = n /\
  (forall k, 0 < k -> n < 16 ^ k -> len (hex n) <= k).
Proof.
  intros Hn. destruct (hex_digits_spec _ n (hex_fuel n Hn) ltac:(lia)) as (H1 & H2 & H3 & H4).
  unfold hex. repeat split; auto.
Qed.

(** ** [int(_, 16)] reads back what [:08x] prints *)

Lemma span_digits_lower (s : bytes) : all_lower_hex s -> span_digits s = (s, []).
Proof.
  induction 1 as [|c s Hc _ IH]; [reflexivity|].
  cbn [span_digits]. apply lower_hex_facts in Hc. destruct Hc as (-> & _).
  now rewrite IH.
Qed.

Lemma underscores_ok_lower (s : bytes) :
  all_lower_hex s -> s <> [] -> forall prev, underscores_ok prev s = true.
Proof.
  induction 1 as [|c s Hc Hs IH]; [congruence|]. intros _ prev.
  cbn [underscores_ok]. apply lower_hex_facts in Hc. destruct Hc as (_ & -> & _).
  destruct s as [|c' s']; [reflexivity|]. apply IH. discriminate.
Qed.

Lemma skip_prefix16_lower (s : bytes) : all_lower_hex s -> skip_prefix16 s = s.
Proof.
  intros H. destruct s as [|z [|x t]]; try reflexivity.
  inversion H as [|? ? _ H']; subst. inversion H' as [|? ? Hx _]; subst.
  apply lower_hex_facts in Hx. destruct Hx as (_ & _ & _ & _ & _ & Hx1 & Hx2 & _).
  cbn [skip_prefix16]. rewrite Hx1, Hx2. now rewrite andb_false_r.
Qed.

Lemma int16_body (negative : bool) (s : bytes) :
  all_lower_hex s -> s <> [] ->
  match skip_prefix16 s with
  | [] => None
  | c :: _ =>
      if is_underscore c then None
      else
        let (run, rest) := span_digits (skip_prefix16 s) in
        match run with
        | [] => None
        | _ :: _ =>
            if underscores_ok false run && forallb is_space rest
            then Some (if negative then - digits_value run else digits_value run)
            else None
        end
  end = Some (if negative then - digits_from 0 s else digits_from 0 s).
Proof.
  intros Hs Hne. rewrite skip_prefix16_lower by assumption.
  destruct s as [|c t]; [congruence|].
  pose proof Hs as Hall. inversion Hs as [|? ? Hc _]; subst.
  apply lower_hex_facts in Hc. destruct Hc as (_ & -> & _).
  rewrite span_digits_lower by assumption.
  now rewrite underscores_ok_lower by (assumption || discriminate).
Qed.

Lemma int16_digits (s : bytes) :
  all_lower_hex s -> s <> [] -> int16 s = Some (digits_from 0 s).
Proof.
  intros Hs Hne. pose proof (int16_body false s Hs Hne) as Hbody.
  destruct s as [|c t]; [congruence|].
  inversion Hs as [|? ? Hc _]; subst.
  apply lower_hex_facts in Hc. destruct Hc as (_ & _ & Hsp & Hm & Hp & _).
  unfold int16. cbn [lstrip]. rewrite Hsp. cbn [split_sign]. rewrite Hm, Hp.
  exact Hbody.
Qed.

Lemma int16_minus_digits (s : bytes) :
  all_lower_hex s -> s <> [] -> int16 ("-"%byte :: s) = Some (- digits_from 0 s).
Proof.
  intros Hs Hne. pose proof (int16_body true s Hs Hne) as Hbody.
  unfold int16. cbn [lstrip]. change (is_space "-"%byte) with false.
  cbn [split_sign]. change (Byte.eqb "-"%byte "-"%byte) with true.
  exact Hbody.
Qed.

Lemma all_lower_hex_zeros (n : nat) : all_lower_hex (repeat "0"%byte n).
Proof. induction n; simpl; constructor; auto. Qed.

Lemma digits_from_zeros (n : nat) : digits_from 0 (repeat "0"%byte n) = 0.
Proof. induction n; simpl; auto. Qed.

(** The digits of a padded number: zeros, then [hex]. *)
Lemma padded_spec (width : nat) (n : Z) :
  0 <= n < 16 ^ Z.of_nat width -> (0 < width)%nat ->
  let s := repeat "0"%byte (width - List.length (hex n)) ++ hex n in
  all_lower_hex s /\ s <> [] /\ digits_from 0 s = n /\ List.length s = width.
Proof.
  intros Hn Hw. destruct (hex_spec n ltac:(lia)) as (Hall & Hne & Hval & Hlen).
  specialize (Hlen (Z.of_nat width) ltac:(lia) ltac:(lia)). unfold len in Hlen.
  cbv zeta. repeat split.
  - apply Forall_app. split; [apply all_lower_hex_zeros | exact Hall].
  - intros E. apply app_eq_nil in E. now destruct E.
  - now rewrite digits_from_app, digits_from_zeros.
  - rewrite length_app, repeat_length. lia.
Qed.

Lemma format_08x_nonneg (n : Z) :
  0 <= n ->
  format_08x n = repeat "0"%byte (8 - List.length (hex n)) ++ hex n.
Proof.
  intros Hn. unfold format_08x.
  destruct (Z.ltb_spec n 0) as [H|_]; [lia|].
  now rewrite Z.abs_eq by lia.
Qed.

Lemma format_08x_neg (n : Z) :
  n < 0 ->
  format_08x n = "-"%byte :: repeat "0"%byte (7 - List.length (hex (- n))) ++ hex (- n).
Proof.
  intros Hn. unfold format_08x.
  destruct (Z.ltb_spec n 0) as [_|H]; [|lia].
  now rewrite Z.abs_neq by lia.
Qed.

Lemma format_08x_length (n : Z) : fits_08x n -> len (format_08x n) = 8.
Proof.
  intros [Hlo Hhi]. destruct (Z_lt_le_dec n 0) as [Hneg|Hpos].
  - rewrite format_08x_neg by assumption.
    destruct (padded_spec 7 (- n)) as (_ & _ & _ & Hlen); [simpl; lia | lia |].
    unfold len. cbn [List.length]. rewrite Hlen. reflexivity.
  - rewrite format_08x_nonneg by assumption.
    destruct (padded_spec 8 n) as (_ & _ & _ & Hlen); [simpl; lia | lia |].
    unfold len. now rewrite Hlen.
Qed.

Lemma int16_format_08x (n : Z) : fits_08x n -> int16 (format_08x n) = Some n.
Proof.
  intros [Hlo Hhi]. destruct (Z_lt_le_dec n 0) as [Hneg|Hpos].
  - rewrite format_08x_neg by assumption.
    destruct (padded_spec 7 (- n)) as (Hall & Hne & Hval & _); [simpl; lia | lia |].
    rewrite int16_minus_digits by assumption. rewrite Hval. f_equal. lia.
  - rewrite format_08x_nonneg by assumption.
    destruct (padded_spec 8 n) as (Hall & Hne & Hval & _); [simpl; lia | lia |].
    rewrite int16_digits by assumption. now rewrite Hval.
Qed.

(** ** Whatever [int(_, 16)] reads in eight bytes, [:08x] prints in eight *)

Lemma span_digits_spec (s run rest : bytes) :
  span_digits s = (run, rest) ->
  s = run ++ rest /\ Forall (fun c => digit_or_underscore c = true) run.
Proof.
  revert run rest. induction s as [|c s IH]; intros run rest.
  - intros [= <- <-]. split; [reflexivity | constructor].
  - cbn [span_digits]. destruct (is_digit16 c || is_underscore c) eqn:Hc.
    + destruct (span_digits s) as [run' rest'] eqn:Hs. intros [= <- <-].
      destruct (IH _ _ eq_refl) as [-> Hall]. split; [reflexivity|].
      constructor; assumption.
    + intros [= <- <-]. split; [reflexivity | constructor].
Qed.

Lemma digits_from_bound (run : bytes) :
  Forall (fun c => digit_or_underscore c = true) run ->
  forall acc, 0 <= acc ->
    0 <= digits_from acc run < (acc + 1) * 16 ^ len run.
Proof.
  induction 1 as [|c run Hc _ IH]; intros acc Hacc.
  - unfold len. simpl. lia.
  - unfold digits_from. cbn [fold_left]. fold (digits_from).
    replace (len (c :: run)) with (Z.succ (len run)) by (unfold len; simpl; lia).
    rewrite Z.pow_succ_r by apply len_nonneg.
    pose proof (len_nonneg run) as Hl.
    assert (0 < 16 ^ len run) by (apply Z.pow_pos_nonneg; lia).
    unfold digit_or_underscore in Hc. destruct (is_underscore c) eqn:Hu.
    + specialize (IH acc Hacc). unfold digits_from in IH. nia.
    + rewrite orb_false_r in Hc. unfold is_digit16 in Hc.
      apply Z.ltb_lt in Hc.
      assert (0 <= digit_value c).
      { unfold digit_value. repeat match goal with
          | |- context [if ?x then _ else _] => destruct x eqn:?
          end; lia. }
      specialize (IH (acc * 16 + digit_value c) ltac:(lia)).
      unfold digits_from in IH. nia.
Qed.

Lemma lstrip_length (s : bytes) : len (lstrip s) <= len s.
Proof.
  induction s as [|c s IH]; [simpl; lia|]. cbn [lstrip].
  destruct (is_space c); [|lia]. unfold len in *. simpl. lia.
Qed.

Lemma skip_prefix16_length (s : bytes) : len (skip_prefix16 s) <= len s.
Proof.
  unfold skip_prefix16. destruct s as [|z [|x t]]; try lia.
  destruct (_ && _); [|lia]. destruct t as [|u t']; unfold len; simpl; [lia|].
  destruct (is_underscore u); simpl; lia.
Qed.

Lemma int16_fits (field : bytes) (z : Z) :
  int16 field = Some z -> len field <= 8 -> fits_08x z.
Proof.
  unfold int16. intros H Hlen.
  pose proof (lstrip_length field) as Hstrip.
  destruct (split_sign (lstrip field)) as [negative s] eqn:Hsign.
  assert (Hs : len s + (if negative then 1 else 0) <= len field).
  { unfold split_sign in Hsign. destruct (lstrip field) as [|c t].
    - injection Hsign as <- <-. lia.
    - destruct (Byte.eqb c "-"%byte); [|destruct (Byte.eqb c "+"%byte)];
        injection Hsign as <- <-; unfold len in *; simpl in *; lia. }
  pose proof (skip_prefix16_length s) as Hskip.
  destruct (skip_prefix16 s) as [|c t] eqn:Hbody; [discriminate|].
  destruct (is_underscore c); [discriminate|].
  destruct (span_digits (c :: t)) as [run rest] eqn:Hspan.
  apply span_digits_spec in Hspan. destruct Hspan as [Hcat Hrun].
  assert (Hrunlen : len run <= len (c :: t)).
  { rewrite Hcat, len_app. pose proof (len_nonneg rest). lia. }
  destruct run as [|r run']; [discriminate|].
  destruct (_ && _); [|discriminate].
  pose proof (digits_from_bound _ Hrun 0 ltac:(lia)) as Hbound.
  fold (digits_value (r :: run')) in Hbound.
  change (digits_from 0 (r :: run')) with (digits_value (r :: run')) in Hbound.
  pose proof (len_nonneg (r :: run')) as Hnn.
  unfold fits_08x. destruct negative; injection H as <-.
  - assert (16 ^ len (r :: run') <= 16 ^ 7) by (apply Z.pow_le_mono_r; lia). lia.
  - assert (16 ^ len (r :: run') <= 16 ^ 8) by (apply Z.pow_le_mono_r; lia). lia.
Qed.

(** ** The association list behind the container *)

Lemma assoc_get_set_same (k : string) (v : CpioEntry) (l : list (string * CpioEntry)) :
  assoc_get k (assoc_set k v l) = Some v.
Proof.
  induction l as [|[k0 v0] l IH]; simpl.
  - now rewrite String.eqb_refl.
  - destruct (String.eqb k0 k) eqn:E; simpl; now rewrite E.
Qed.

Lemma assoc_get_set_other (k k' : string) (v : CpioEntry) (l : list (string * CpioEntry)) :
  k' <> k -> assoc_get k' (assoc_set k v l) = assoc_get k' l.
Proof.
  intros Hne. induction l as [|[k0 v0] l IH]; simpl.
  - apply String.eqb_neq in Hne. now rewrite String.eqb_sym, Hne.
  - destruct (String.eqb k0 k) eqn:E; simpl.
    + apply String.eqb_eq in E. subst k0.
      assert (String.eqb k k' = false) as -> by (apply String.eqb_neq; congruence).
      reflexivity.
    + now rewrite IH.
Qed.

Lemma assoc_set_present (k : string) (v old : CpioEntry) (l : list (string * CpioEntry)) :
  assoc_get k l = Some old -> map fst (assoc_set k v l) = map fst l.
Proof.
  induction l as [|[k0 v0] l IH]; simpl; [discriminate|].
  destruct (String.eqb k0 k); simpl; [reflexivity|].
  intros H. now rewrite IH.
Qed.

Lemma assoc_set_absent (k : string) (v : CpioEntry) (l : list (string * CpioEntry)) :
  assoc_get k l = None -> assoc_set k v l = l ++ [(k, v)].
Proof.
  induction l as [|[k0 v0] l IH]; simpl; [reflexivity|].
  destruct (String.eqb k0 k); [discriminate|].
  intros H. now rewrite IH.
Qed.

Lemma assoc_set_same (k : string) (v : CpioEntry) (l : list (string * CpioEntry)) :
  assoc_get k l = Some v -> assoc_set k v l = l.
Proof.
  induction l as [|[k0 v0] l IH]; simpl; [discriminate|].
  destruct (String.eqb k0 k); [now intros [= ->]|].
  intros H. now rewrite IH.
Qed.

Lemma assoc_set_in (k : string) (v : CpioEntry) (l : list (string * CpioEntry))
  (kv : string * CpioEntry) :
  In kv (assoc_set k v l) -> snd kv = v \/ In kv l.
Proof.
  induction l as [|[k0 v0] l IH]; simpl.
  - intros [<-|[]]. now left.
  - destruct (String.eqb k0 k); simpl.
    + intros [<-|H]; [now left | now right; right].
    + intros [<-|H]; [now right; left|]. destruct (IH H); [now left | now right; right].
Qed.

Lemma assoc_pop_in (k : string) (l : list (string * CpioEntry)) (kv : string * CpioEntry) :
  In kv (assoc_pop k l) -> In kv l.
Proof.
  induction l as [|[k0 v0] l IH]; simpl; [easy|].
  destruct (String.eqb k0 k); simpl; [now right|].
  intros [<-|H]; [now left | right; auto].
Qed.

Lemma assoc_get_in (k : string) (v : CpioEntry) (l : list (string * CpioEntry)) :
  assoc_get k l = Some v -> exists k0, In (k0, v) l.
Proof.
  induction l as [|[k0 v0] l IH]; simpl; [discriminate|].
  destruct (String.eqb k0 k).
  - intros [= ->]. exists k0. now left.
  - intros H. destruct (IH H) as [k1 H1]. exists k1. now right.
Qed.

Lemma contains_getitem (k : string) (c : CpioEntryContainer) :
  contains k c = false <-> getitem k c = None.
Proof. unfold contains. destruct (getitem k c); split; congruence. Qed.

(** ** [add_entry], case by case *)

Lemma classify_keeps (path : local_path) (e e' : CpioEntry) :
  classify path e = Ok e' ->
  name e' = name e /\ mode e' = mode e /\ uid e' = uid e /\ gid e' = gid e /\
  number_of_links e' = number_of_links e /\
  modification_time e' = modification_time e /\ has_crc e' = has_crc e /\
  inode e' = inode e /\ dev e' = dev e.
Proof.
  unfold classify.
  destruct (path_is_file path); [|destruct (path_is_symlink path);
    [|destruct (path_is_dir path)]]; intros [= <-]; repeat split.
Qed.

Lemma add_entry_true (path : local_path) (archive_path : string)
  (self : CpioEntryContainer) :
  returned (add_entry path archive_path self) = Ok true ->
  path_exists path = true /\ contains (parent_str archive_path) self = true /\
  exists e,
    classify path (new_entry path archive_path
                     (fst (allocation archive_path self))
                     (snd (allocation archive_path self))) = Ok e /\
    after (add_entry path archive_path self)
    = setitem archive_path (set_size e (len (data e))) self.
Proof.
  unfold add_entry, allocation.
  destruct (path_exists path); [|discriminate].
  destruct (contains (parent_str archive_path) self); [|discriminate].
  cbn [negb]. destruct (getitem archive_path self) as [old|]; cbn [fst snd].
  - fold (new_entry path archive_path (inode old) (dev old)).
    destruct (classify path _) as [e|x|]; cbn [returned after]; [|discriminate..].
    intros _. repeat split. exists e. split; reflexivity.
  - fold (new_entry path archive_path (_inode_next self) zero_dev).
    destruct (classify path _) as [e|x|]; cbn [returned after]; [|discriminate..].
    intros _. repeat split. exists e. split; reflexivity.
Qed.

Lemma add_entry_else (path : local_path) (archive_path : string)
  (self : CpioEntryContainer) :
  returned (add_entry path archive_path self) <> Ok true ->
  after (add_entry path archive_path self) = self.
Proof.
  unfold add_entry.
  destruct (path_exists path); [|reflexivity].
  destruct (contains (parent_str archive_path) self); [|reflexivity].
  cbn [negb]. destruct (getitem archive_path self) as [old|];
    (destruct (classify path _) as [e|x|]; cbn [returned after];
     [congruence | reflexivity..]).
Qed.

Lemma add_entry_no_parent (path : local_path) (archive_path : string)
  (self : CpioEntryContainer) :
  contains (parent_str archive_path) self = false ->
  returned (add_entry path archive_path self) = Ok false /\
  after (add_entry path archive_path self) = self.
Proof.
  intros H. unfold add_entry. destruct (path_exists path); cbn [negb].
  - rewrite H. split; reflexivity.
  - split; reflexivity.
Qed.

(** ** Paths *)

Lemma split_sep_plain (x : string) : no_sep x = true -> split_sep x = [x].
Proof.
  induction x as [|c x IH]; [reflexivity|]. cbn [no_sep split_sep].
  destruct (Ascii.eqb c "/"); [discriminate|]. cbn [negb andb].
  intros H. now rewrite IH.
Qed.

Lemma split_sep_cons (x rest : string) :
  no_sep x = true ->
  split_sep (x ++ String "/" rest) = x :: split_sep rest.
Proof.
  induction x as [|c x IH]; [reflexivity|]. cbn [no_sep].
  destruct (Ascii.eqb c "/") eqn:E; [discriminate|]. cbn [negb andb].
  intros H. cbn [append split_sep]. rewrite E. now rewrite IH.
Qed.

Lemma splitroot_relative (x rest : string) :
  plain_name x = true -> splitroot (x ++ rest) = (EmptyString, (x ++ rest)%string).
Proof.
  unfold plain_name, is_component. destruct x as [|c x]; [discriminate|].
  cbn [no_sep append splitroot]. destruct (Ascii.eqb c "/").
  - now rewrite andb_false_r.
  - reflexivity.
Qed.

Lemma plain_name_parts (x : string) :
  plain_name x = true -> is_component x = true /\ no_sep x = true.
Proof. unfold plain_name. apply andb_true_iff. Qed.

Lemma parent_str_three (a b c : string) :
  plain_name a = true -> plain_name b = true -> plain_name c = true ->
  parent_str (a ++ "/" ++ b ++ "/" ++ c) = (a ++ "/" ++ b)%string.
Proof.
  intros Ha Hb Hc. unfold parent_str, parse_path.
  rewrite splitroot_relative by assumption.
  apply plain_name_parts in Ha, Hb, Hc.
  destruct Ha as [Ha1 Ha2], Hb as [Hb1 Hb2], Hc as [Hc1 Hc2].
  change ("/" ++ b ++ "/" ++ c)%string with (String "/" (b ++ String "/" c)).
  rewrite split_sep_cons, split_sep_cons, split_sep_plain by assumption.
  cbn [filter]. rewrite Ha1, Hb1, Hc1. cbn [removelast].
  unfold format_path. cbn [String.concat append].
  destruct a as [|ch a']; [discriminate|]. reflexivity.
Qed.

Lemma parent_str_top_level (p : string) : no_sep p = true -> parent_str p = "."%string.
Proof.
  intros H. unfold parent_str, parse_path.
  assert (Hroot : splitroot p = (EmptyString, p)).
  { destruct p as [|c p']; [reflexivity|]. cbn [no_sep] in H. cbn [splitroot].
    destruct (Ascii.eqb c "/"); [discriminate | reflexivity]. }
  rewrite Hroot, split_sep_plain by assumption. cbn [filter].
  destruct (is_component p); reflexivity.
Qed.

(** ** Claims about [add_entry] *)

(** C4.  Adding [a/b/c] to a container with no entry [a/b] returns [False]
    (it does not raise) and leaves the container as it was; when the local
    file exists, the one line logged is critical and names the missing
    parent. *)
Theorem add_entry_requires_parent (path : local_path) (a b c : string)
  (self : CpioEntryContainer) :
  plain_name a = true -> plain_name b = true -> plain_name c = true ->
  contains (a ++ "/" ++ b) self = false ->
  let archive_path := (a ++ "/" ++ b ++ "/" ++ c)%string in
  let out := add_entry path archive_path self in
  returned out = Ok false /\ after out = self /\
  (path_exists path = true ->
   logged out = [(CRITICAL, [Str (a ++ "/" ++ b); Lit " not in the archive. Failed to add ";
                             Str archive_path])]).
Proof.
  intros Ha Hb Hc Hparent archive_path out.
  assert (Hp : parent_str archive_path = (a ++ "/" ++ b)%string)
    by (apply parent_str_three; assumption).
  destruct (add_entry_no_parent path archive_path self) as [Hr Hs];
    [now rewrite Hp|].
  repeat split; try assumption.
  intros He. unfold out, add_entry. rewrite He. cbn [negb].
  rewrite Hp, Hparent. reflexivity.
Qed.

Lemma add_entry_requires_parent_witness :
  let out := add_entry sample_file "a/b/c" sample_container in
  returned out = Ok false /\ after out = sample_container /\
  (path_exists sample_file = true ->
   logged out = [(CRITICAL, [Str "a/b"; Lit " not in the archive. Failed to add ";
                             Str "a/b/c"])]).
Proof.
  apply (add_entry_requires_parent sample_file "a" "b" "c" sample_container);
    reflexivity.
Defined.

(** C9.  A path with no separator has the parent [.]: adding it to a
    container with no entry under [.] returns [False] and changes nothing;
    with such an entry the parent check passes, and [False] is returned only
    for a local file that does not exist. *)
Theorem add_entry_top_level (path : local_path) (archive_path : string)
  (self : CpioEntryContainer) :
  no_sep archive_path = true ->
  parent_str archive_path = "."%string /\
  (contains "." self = false ->
   returned (add_entry path archive_path self) = Ok false /\
   after (add_entry path archive_path self) = self) /\
  (contains "." self = true ->
   (returned (add_entry path archive_path self) = Ok false <->
    path_exists path = false)).
Proof.
  intros H. pose proof (parent_str_top_level archive_path H) as Hp.
  split; [exact Hp|]. split.
  - intros Hdot. apply add_entry_no_parent. now rewrite Hp.
  - intros Hdot. unfold add_entry. rewrite Hp, Hdot.
    destruct (path_exists path); cbn [negb].
    + split; [|discriminate].
      destruct (getitem archive_path self);
        destruct (classify path _); cbn [returned]; discriminate.
    + split; reflexivity.
Qed.

Lemma add_entry_top_level_witness :
  parent_str "foo" = "."%string /\
  (contains "." sample_container = false ->
   returned (add_entry sample_file "foo" sample_container) = Ok false /\
   after (add_entry sample_file "foo" sample_container) = sample_container) /\
  (contains "." sample_container = true ->
   (returned (add_entry sample_file "foo" sample_container) = Ok false <->
    path_exists sample_file = false)).
Proof.
  apply (add_entry_top_level sample_file "foo" sample_container). reflexivity.
Defined.



(** C2, at a failing input.  Adding a regular local file whose status mode
    is 0o100644 stores that mode as it is: the file-type bit 0o100000 is
    set in the entry's [mode]. *)
Theorem add_entry_stores_type_bits :
  let out := add_entry sample_file "etc/passwd" sample_container in
  returned out = Ok true /\
  exists e, getitem "etc/passwd" (after out) = Some e /\
            mode e = 33188 /\ Z.land (mode e) ModeMask.file_type = 32768.
Proof.
  cbv zeta. split; [reflexivity|]. eexists. split; [reflexivity|].
  split; reflexivity.
Qed.

(** The same for every successful add: the mode stored is [st_mode],
    unmasked. *)
Lemma add_entry_mode_verbatim (path : local_path) (archive_path : string)
  (self : CpioEntryContainer) :
  returned (add_entry path archive_path self) = Ok true ->
  exists e, getitem archive_path (after (add_entry path archive_path self)) = Some e /\
            mode e = st_mode (path_lstat path).
Proof.
  intros H. destruct (add_entry_true _ _ _ H) as (_ & _ & e & Hc & Hafter).
  rewrite Hafter. exists (set_size e (len (data e))).
  split; [apply assoc_get_set_same|].
  destruct (classify_keeps _ _ _ Hc) as (_ & Hm & _). exact Hm.
Qed.

(** [modify_entry] stores the mode it is given, unmasked as well; written
    out, the type bits of the mode and of [file_type] are or-ed: a
    directory given the mode 0o100644 is written as a socket. *)
Lemma modify_entry_mode_verbatim :
  let out := modify_entry "etc" None None (Some 33188) None sample_container in
  returned out = Ok true /\
  exists e, getitem "etc" (after out) = Some e /\
            file_type e = directory /\ mode e = 33188 /\
            int16 (c_mode (entry_header e)) = Some (33188 + 16384) /\
            FileTypes_of (Z.land (33188 + 16384) ModeMask.file_type) = Ok socket.
Proof.
  cbv zeta. split; [reflexivity|]. eexists. split; [reflexivity|].
  repeat split; reflexivity.
Qed.

(** ** Claim about [modify_entry] *)

(** C7 as stated fails where a field is given the value it already has:
    setting the uid of [etc] to 0, which it is, returns [True] and leaves
    the container as it was. *)
Lemma modify_entry_same_value :
  ~ returns_whether_changed "etc" (Some 0) None None None sample_container.
Proof. intros [H _]. apply H; reflexivity. Qed.

(** C7, amended.  On a path that is present, every field given is handled
    on its own.  New data is taken only by a regular file, and then both
    [data] and [size] change; for any other type an error is logged and
    data and size stay.  A uid, gid or mode given is stored whatever the
    type.  The value returned tells whether at least one assignment was
    made, be the value assigned new or not; when it is [False] the
    container is as it was.  Nothing else moves: name, type, link count,
    time, inode, device field, the order of the names and the next free
    inode. *)
Theorem modify_entry_fields (archive_path : string)
  (update_uid update_gid update_mode : option Z) (update_data : option bytes)
  (self : CpioEntryContainer) (entry : CpioEntry) :
  getitem archive_path self = Some entry ->
  let out := modify_entry archive_path update_uid update_gid update_mode update_data self in
  let accepted := data_accepted entry update_data in
  returned out
  = Ok (accepted || provided update_uid || provided update_gid || provided update_mode) /\
  (returned out = Ok false -> after out = self) /\
  keys (after out) = keys self /\ _inode_next (after out) = _inode_next self /\
  (forall other, other <> archive_path -> getitem other (after out) = getitem other self) /\
  (provided update_data = true -> accepted = false ->
   In (ERROR, [Lit "Failed to update data for "; Str archive_path;
               Lit ". Reason: not a regular file."]) (logged out)) /\
  exists e,
    getitem archive_path (after out) = Some e /\
    data e = (if accepted then or_else update_data [] else data entry) /\
    size e = (if accepted then len (or_else update_data []) else size entry) /\
    uid e = or_else update_uid (uid entry) /\
    gid e = or_else update_gid (gid entry) /\
    mode e = or_else update_mode (mode entry) /\
    name e = name entry /\ file_type e = file_type entry /\
    number_of_links e = number_of_links entry /\
    modification_time e = modification_time entry /\
    has_crc e = has_crc entry /\ inode e = inode entry /\ dev e = dev entry.
Proof.
  intros Hget out accepted. subst out accepted. unfold modify_entry. rewrite Hget.
  unfold data_accepted, getitem, keys in *.
  destruct update_data as [d|]; [destruct (FileTypes_eqb (file_type entry) regular)|];
    destruct update_uid as [u|]; destruct update_gid as [g|];
    destruct update_mode as [m|];
    cbn [returned after logged mutate items _inode_next provided or_else orb].
  all: split; [reflexivity|].
  all: split;
    [intros Hr; try discriminate Hr; destruct self as [l n]; unfold mutate;
     cbn [items _inode_next] in *; f_equal; now apply assoc_set_same|].
  all: split; [eapply assoc_set_present; exact Hget|].
  all: split; [reflexivity|].
  all: split; [intros other Hne; now apply assoc_get_set_other|].
  all: split; [intros H1 H2; try discriminate H1; try discriminate H2;
               repeat (apply in_or_app; cbn [In]; tauto || left)|].
  all: eexists; split; [apply assoc_get_set_same|].
  all: repeat split.
Qed.

Lemma modify_entry_fields_witness :
  exists entry,
  let out := modify_entry "etc" (Some 0) None (Some 448) (Some (B "x")) sample_container in
  let accepted := data_accepted entry (Some (B "x")) in
  returned out
  = Ok (accepted || provided (Some 0) || provided (@None Z) || provided (Some 448)) /\
  (returned out = Ok false -> after out = sample_container) /\
  keys (after out) = keys sample_container /\
  _inode_next (after out) = _inode_next sample_container /\
  (forall other, other <> "etc"%string ->
                 getitem other (after out) = getitem other sample_container) /\
  (provided (Some (B "x")) = true -> accepted = false ->
   In (ERROR, [Lit "Failed to update data for "; Str "etc";
               Lit ". Reason: not a regular file."]) (logged out)) /\
  exists e,
    getitem "etc" (after out) = Some e /\
    data e = (if accepted then or_else (Some (B "x")) [] else data entry) /\
    size e = (if accepted then len (or_else (Some (B "x")) []) else size entry) /\
    uid e = or_else (Some 0) (uid entry) /\
    gid e = or_else None (gid entry) /\
    mode e = or_else (Some 448) (mode entry) /\
    name e = name entry /\ file_type e = file_type entry /\
    number_of_links e = number_of_links entry /\
    modification_time e = modification_time entry /\
    has_crc e = has_crc entry /\ inode e = inode entry /\ dev e = dev entry.
Proof.
  exists (sample_dir_entry "etc" 7).
  apply (modify_entry_fields "etc" (Some 0) None (Some 448) (Some (B "x"))
           sample_container (sample_dir_entry "etc" 7)).
  reflexivity.
Defined.

(** ** The next free inode *)

Lemma setitem_next (k : string) (v : CpioEntry) (self : CpioEntryContainer) :
  _inode_next self <= _inode_next (setitem k v self) /\
  inode v < _inode_next (setitem k v self).
Proof. cbn [setitem _inode_next]. lia. Qed.

Lemma setitem_below (k : string) (v : CpioEntry) (self : CpioEntryContainer) :
  inodes_below_next self -> inodes_below_next (setitem k v self).
Proof.
  unfold inodes_below_next, values. rewrite !Forall_forall. intros H e He.
  destruct (setitem_next k v self) as [Hle Hlt].
  apply in_map_iff in He. destruct He as ([k0 e0] & <- & Hin).
  cbn [setitem items] in Hin. apply assoc_set_in in Hin. cbn [snd] in *.
  destruct Hin as [->|Hin]; [exact Hlt|].
  assert (inode e0 < _inode_next self).
  { apply H. apply in_map_iff. exists (k0, e0). split; [reflexivity | exact Hin]. }
  lia.
Qed.

Lemma pop_below (k : string) (self : CpioEntryContainer) :
  inodes_below_next self -> inodes_below_next (pop k self).
Proof.
  unfold inodes_below_next, values. rewrite !Forall_forall. intros H e He.
  apply in_map_iff in He. destruct He as (kv & <- & Hin).
  cbn [pop items] in Hin. apply assoc_pop_in in Hin.
  cbn [pop _inode_next]. apply H. apply in_map_iff. now exists kv.
Qed.

Lemma mutate_below (k : string) (v old : CpioEntry) (self : CpioEntryContainer) :
  getitem k self = Some old -> inode v = inode old ->
  inodes_below_next self -> inodes_below_next (mutate k v self).
Proof.
  unfold inodes_below_next, values. rewrite !Forall_forall. intros Hget Hv H e He.
  apply in_map_iff in He. destruct He as (kv & <- & Hin).
  cbn [mutate items] in Hin. apply assoc_set_in in Hin. cbn [mutate _inode_next].
  destruct Hin as [->|Hin].
  - rewrite Hv. apply assoc_get_in in Hget. destruct Hget as [k0 Hin].
    apply H. apply in_map_iff. now exists (k0, old).
  - apply H. apply in_map_iff. now exists kv.
Qed.

Lemma modify_entry_after (archive_path : string)
  (update_uid update_gid update_mode : option Z) (update_data : option bytes)
  (self : CpioEntryContainer) (entry : CpioEntry) :
  getitem archive_path self = Some entry ->
  exists e,
    after (modify_entry archive_path update_uid update_gid update_mode update_data self)
    = mutate archive_path e self /\ inode e = inode entry.
Proof.
  intros Hget. unfold modify_entry. rewrite Hget.
  destruct update_data as [d|]; [destruct (FileTypes_eqb (file_type entry) regular)|];
    destruct update_uid; destruct update_gid; destruct update_mode;
    cbn [after]; eexists; split; reflexivity.
Qed.

Lemma apply_op_below (op : operation) (self : CpioEntryContainer) :
  inodes_below_next self ->
  inodes_below_next (apply_op op self) /\
  _inode_next self <= _inode_next (apply_op op self).
Proof.
  intros H. destruct op as [entry|path ap|ap|ap u g m d]; cbn [apply_op].
  - split; [now apply setitem_below | apply setitem_next].
  - destruct (returned (add_entry path ap self)) as [[|]|x|] eqn:Hr.
    + destruct (add_entry_true _ _ _ Hr) as (_ & _ & e & _ & ->).
      split; [now apply setitem_below | apply setitem_next].
    + rewrite add_entry_else by congruence. split; [exact H | lia].
    + rewrite add_entry_else by congruence. split; [exact H | lia].
    + rewrite add_entry_else by congruence. split; [exact H | lia].
  - unfold delete_entry. destruct (contains ap self); cbn [after].
    + split; [now apply pop_below | cbn [pop _inode_next]; lia].
    + split; [exact H | lia].
  - destruct (getitem ap self) as [entry|] eqn:Hget.
    + destruct (modify_entry_after ap u g m d self entry Hget) as (e & -> & He).
      split; [eapply mutate_below; eassumption | cbn [mutate _inode_next]; lia].
    + unfold modify_entry. rewrite Hget. cbn [after]. split; [exact H | lia].
Qed.

Lemma run_below (ops : list operation) :
  forall self, inodes_below_next self ->
    inodes_below_next (run ops self) /\
    _inode_next self <= _inode_next (run ops self) /\
    Forall (fun i => i < _inode_next (run ops self)) (inodes_ever ops self).
Proof.
  induction ops as [|op ops IH]; intros self H.
  - cbn [run fold_left inodes_ever]. rewrite app_nil_r.
    split; [exact H|]. split; [lia|].
    unfold inodes_below_next in H. rewrite Forall_forall in *.
    intros i Hi. apply in_map_iff in Hi. destruct Hi as (e & <- & He). now apply H.
  - destruct (apply_op_below op self H) as [H1 H2].
    destruct (IH _ H1) as (H3 & H4 & H5).
    change (run (op :: ops) self) with (run ops (apply_op op self)).
    split; [exact H3|]. split; [lia|].
    cbn [inodes_ever]. apply Forall_app. split; [|exact H5].
    unfold inodes_below_next in H. rewrite Forall_forall in *.
    intros i Hi. apply in_map_iff in Hi. destruct Hi as (e & <- & He).
    specialize (H e He). lia.
Qed.

Lemma empty_below : inodes_below_next empty_container.
Proof. constructor. Qed.

Lemma reachable_below (self : CpioEntryContainer) :
  reachable self -> inodes_below_next self.
Proof. intros [ops ->]. apply run_below, empty_below. Qed.

(** C6.  In a container a session can hold, after a successful add the
    next free inode is above the inode of every entry; when the path was
    not there before, the new entry took the old next free inode and the
    counter moved one past it. *)
Theorem add_entry_next_inode_above (path : local_path) (archive_path : string)
  (self : CpioEntryContainer) :
  reachable self ->
  contains archive_path self = false ->
  returned (add_entry path archive_path self) = Ok true ->
  let self' := after (add_entry path archive_path self) in
  Forall (fun e => inode e < _inode_next self') (values self') /\
  _inode_next self' = _inode_next self + 1.
Proof.
  intros Hreach Hnew Hr self'. subst self'.
  destruct (add_entry_true _ _ _ Hr) as (_ & _ & e & Hc & ->).
  split.
  - apply setitem_below, reachable_below, Hreach.
  - destruct (classify_keeps _ _ _ Hc) as (_ & _ & _ & _ & _ & _ & _ & Hi & _).
    apply contains_getitem in Hnew. unfold allocation in Hi. rewrite Hnew in Hi.
    cbn [setitem _inode_next set_size inode]. rewrite Hi. cbn [new_entry inode fst]. lia.
Qed.

Lemma add_entry_next_inode_above_witness :
  let self' := after (add_entry sample_file "etc/passwd" sample_container) in
  Forall (fun e => inode e < _inode_next self') (values self') /\
  _inode_next self' = _inode_next sample_container + 1.
Proof.
  apply (add_entry_next_inode_above sample_file "etc/passwd" sample_container).
  - exists [Insert (sample_dir_entry "etc" 7); Insert (sample_file_entry "etc/hosts" 8)].
    reflexivity.
  - reflexivity.
  - reflexivity.
Defined.

(** C10.  Deleting never lowers the next free inode, and after any sequence
    of operations on a fresh container, a successful add of a path that is
    not there gives the new entry an inode above every inode an entry ever
    carried in that container, the inodes of entries deleted since
    included. *)
Theorem inode_never_reused (ops : list operation) (path : local_path)
  (archive_path victim : string) :
  let self := run ops empty_container in
  contains archive_path self = false ->
  returned (add_entry path archive_path self) = Ok true ->
  _inode_next (after (delete_entry victim self)) = _inode_next self /\
  exists e,
    getitem archive_path (after (add_entry path archive_path self)) = Some e /\
    Forall (fun i => i < inode e) (inodes_ever ops empty_container).
Proof.
  intros self Hnew Hr. split.
  - unfold delete_entry. destruct (contains victim self); reflexivity.
  - destruct (add_entry_true _ _ _ Hr) as (_ & _ & e & Hc & Hafter).
    destruct (classify_keeps _ _ _ Hc) as (_ & _ & _ & _ & _ & _ & _ & Hi & _).
    apply contains_getitem in Hnew. unfold allocation in Hi. rewrite Hnew in Hi.
    cbn [new_entry inode fst] in Hi.
    exists (set_size e (len (data e))). rewrite Hafter.
    split; [apply assoc_get_set_same|].
    cbn [set_size inode]. rewrite Hi.
    apply (run_below ops empty_container empty_below).
Qed.

Lemma inode_never_reused_witness :
  let ops := [Insert (sample_dir_entry "etc" 7); Insert (sample_file_entry "etc/hosts" 8);
              Delete "etc/hosts"] in
  let self := run ops empty_container in
  _inode_next (after (delete_entry "etc" self)) = _inode_next self /\
  exists e,
    getitem "etc/hosts" (after (add_entry sample_file "etc/hosts" self)) = Some e /\
    Forall (fun i => i < inode e) (inodes_ever ops empty_container).
Proof.
  apply (inode_never_reused
           [Insert (sample_dir_entry "etc" 7); Insert (sample_file_entry "etc/hosts" 8);
            Delete "etc/hosts"] sample_file "etc/hosts" "etc"); reflexivity.
Defined.

(** ** The header on the wire *)

Lemma serialize_ok (h : CpioNewcHeader) (raw : bytes) :
  serialize h = Ok raw ->
  raw = c_magic h ++ c_ino h ++ c_mode h ++ c_uid h ++ c_gid h ++ c_nlink h ++
        c_mtime h ++ c_filesize h ++ c_dev h ++ c_namesize h ++ c_check h /\
  len (c_magic h) = 6 /\ len (c_ino h) = 8 /\ len (c_mode h) = 8 /\
  len (c_uid h) = 8 /\ len (c_gid h) = 8 /\ len (c_nlink h) = 8 /\
  len (c_mtime h) = 8 /\ len (c_filesize h) = 8 /\ len (c_dev h) = 32 /\
  len (c_namesize h) = 8 /\ len (c_check h) = 8.
Proof.
  unfold serialize. destruct (widths_ok _ _) eqn:Hw; [|discriminate].
  intros [= <-]. cbn [header_fields header_widths widths_ok] in Hw.
  repeat (apply andb_true_iff in Hw; destruct Hw as [?%Z.eqb_eq Hw]).
  cbn [header_fields List.concat]. rewrite app_nil_r. repeat split; assumption.
Qed.

Lemma serialize_widths (h : CpioNewcHeader) :
  len (c_magic h) = 6 -> len (c_ino h) = 8 -> len (c_mode h) = 8 ->
  len (c_uid h) = 8 -> len (c_gid h) = 8 -> len (c_nlink h) = 8 ->
  len (c_mtime h) = 8 -> len (c_filesize h) = 8 -> len (c_dev h) = 32 ->
  len (c_namesize h) = 8 -> len (c_check h) = 8 ->
  serialize h = Ok (List.concat (header_fields h)).
Proof.
  intros. unfold serialize. cbn [header_fields header_widths widths_ok].
  repeat match goal with H : len _ = _ |- _ => rewrite H; clear H end.
  reflexivity.
Qed.

Lemma serialize_length (h : CpioNewcHeader) (raw : bytes) :
  serialize h = Ok raw -> len raw = header_size.
Proof.
  intros H. apply serialize_ok in H. destruct H as (-> & H).
  rewrite !len_app. unfold header_size. lia.
Qed.

Lemma deserialize_serialize (h : CpioNewcHeader) (raw stream : bytes) :
  serialize h = Ok raw -> deserialize (raw ++ stream) = Ok (h, stream).
Proof.
  intros H. pose proof (serialize_length _ _ H) as Hlen.
  apply serialize_ok in H.
  destruct H as (Hraw & H1 & H2 & H3 & H4 & H5 & H6 & H7 & H8 & H9 & H10 & H11).
  unfold deserialize. rewrite (read_app header_size raw stream Hlen).
  rewrite Hlen, Z.ltb_irrefl. rewrite Hraw.
  repeat (rewrite read_app by assumption).
  rewrite <- (app_nil_r (c_check h)) at 1. rewrite read_app by assumption.
  destruct h; reflexivity.
Qed.

(** ** Padding *)

Lemma padding_of_range (n : Z) : 0 <= padding_of n < 4.
Proof. unfold padding_of. Z.to_euclidean_division_equations. lia. Qed.

Lemma padding_of_aligns (n : Z) : (n + padding_of n) mod 4 = 0.
Proof. unfold padding_of. Z.to_euclidean_division_equations. lia. Qed.

Lemma padding_of_shift (n m : Z) : n mod 4 = 0 -> padding_of (n + m) = padding_of m.
Proof. unfold padding_of. Z.to_euclidean_division_equations. lia. Qed.

Lemma put_counted (chunk : bytes) (w : writer) :
  counted w -> counted (put chunk (len chunk) w).
Proof. unfold counted, put. cbn [file bytes_written]. rewrite len_app. lia. Qed.

Lemma write_padding_counted (w : writer) :
  counted w -> counted (write_padding w) /\ aligned (write_padding w).
Proof.
  unfold counted, aligned, write_padding, put. cbn [file bytes_written].
  intros ->. pose proof (padding_of_range (len (file w))).
  rewrite len_app, len_repeat, Z2Nat.id by lia.
  split; [reflexivity | apply padding_of_aligns].
Qed.

Lemma write_name_block_counted (h : CpioNewcHeader) (name_encoded : bytes)
  (w w' : writer) :
  write_name_block h name_encoded w = Ok w' ->
  extends w' w /\ (counted w -> counted w' /\ aligned w').
Proof.
  unfold write_name_block. destruct (serialize h) as [raw| |] eqn:Hs; try discriminate.
  cbn [bind]. intros [= <-]. split.
  - unfold extends, write_padding, put. cbn [file]. eexists.
    rewrite <- !app_assoc. reflexivity.
  - intros Hc. apply write_padding_counted. apply put_counted.
    rewrite <- (serialize_length _ _ Hs). now apply put_counted.
Qed.

Lemma write_data_block_counted (payload : bytes) (w : writer) :
  extends (write_data_block payload w) w /\
  (counted w -> counted (write_data_block payload w) /\
                aligned (write_data_block payload w)).
Proof.
  unfold write_data_block. split.
  - unfold extends, write_padding, put. cbn [file]. eexists.
    rewrite <- !app_assoc. reflexivity.
  - intros Hc. apply write_padding_counted. now apply put_counted.
Qed.

Lemma extends_trans (w1 w2 w3 : writer) : extends w1 w2 -> extends w2 w3 -> extends w1 w3.
Proof.
  intros [t1 H1] [t2 H2]. exists (t2 ++ t1). now rewrite H1, H2, app_assoc.
Qed.

Lemma extends_refl (w : writer) : extends w w.
Proof. exists []. now rewrite app_nil_r. Qed.

Lemma last_nonempty {A : Type} (l : list A) (d d' : A) :
  l <> [] -> last l d = last l d'.
Proof.
  induction l as [|x l IH]; [congruence|]. intros _.
  destruct l as [|y l']; [reflexivity|]. cbn [last] in *. apply IH. discriminate.
Qed.

Lemma write_marks_spec (entries : list CpioEntry) :
  forall w0 w,
    bind (write_entries entries w0) write_trailer = Ok w ->
    counted w0 ->
    exists marks,
      write_marks entries w0 = Ok marks /\
      last marks w0 = w /\
      List.length marks = (2 * List.length entries + 1)%nat /\
      Forall (fun m => counted m /\ aligned m /\ extends w m /\ extends m w0) marks.
Proof.
  induction entries as [|entry rest IH]; intros w0 w Hrun Hc.
  - cbn [write_entries bind] in Hrun. cbn [write_marks]. rewrite Hrun. cbn [bind].
    exists [w]. repeat split.
    destruct (write_name_block_counted _ _ _ _ Hrun) as [Hext Hca].
    destruct (Hca Hc). constructor; [|constructor].
    repeat split; auto using extends_refl.
  - cbn [write_entries bind] in Hrun. unfold write_entry in Hrun.
    cbn [write_marks].
    destruct (write_name_block _ _ w0) as [w1| |] eqn:H1; try discriminate.
    cbn [bind] in Hrun |- *.
    destruct (write_name_block_counted _ _ _ _ H1) as [Hext1 Hca1].
    destruct (Hca1 Hc) as [Hc1 Ha1].
    destruct (write_data_block_counted (data entry) w1) as [Hext2 Hca2].
    destruct (Hca2 Hc1) as [Hc2 Ha2].
    destruct (IH _ _ Hrun Hc2) as (marks & Hm & Hlast & Hlen & Hall).
    rewrite Hm. cbn [bind]. exists (w1 :: write_data_block (data entry) w1 :: marks).
    assert (Hw : extends w (write_data_block (data entry) w1)).
    { destruct marks as [|m marks']; [simpl in Hlen; lia|].
      inversion Hall as [|? ? (_ & _ & Hwm & Hm0) _]; subst.
      eapply extends_trans; eassumption. }
    repeat split.
    + destruct marks as [|m marks']; [simpl in Hlen; lia|].
      rewrite <- Hlast. cbn [last]. apply (last_nonempty (m :: marks')). discriminate.
    + cbn [List.length]. lia.
    + constructor; [|constructor].
      * repeat split; auto. eapply extends_trans; eassumption.
      * repeat split; auto. eapply extends_trans; eassumption.
      * eapply Forall_impl; [|exact Hall]. cbv beta.
        intros m (? & ? & ? & ?). repeat split; auto.
        eapply extends_trans; [eassumption|]. eapply extends_trans; eassumption.
Qed.

(** C8.  When [write] succeeds, the states it passes at the end of every
    block (the header-and-name block and the payload block of every entry,
    then the trailer's header-and-name block) all have a stream whose length
    is a multiple of 4; the running count is that length; each state's
    stream is the beginning of the final one, and the last state is the
    final one. *)
Theorem write_blocks_aligned (entries : CpioEntryContainer) (w : writer) :
  write_run entries = Ok w ->
  exists marks,
    write_marks (values entries) fresh_writer = Ok marks /\
    last marks fresh_writer = w /\
    List.length marks = (2 * List.length (values entries) + 1)%nat /\
    Forall (fun m => len (file m) mod 4 = 0 /\ bytes_written m = len (file m) /\
                     exists tail, file w = file m ++ tail) marks.
Proof.
  intros H. unfold write_run in H.
  destruct (write_marks_spec _ _ _ H eq_refl) as (marks & Hm & Hlast & Hlen & Hall).
  exists marks. repeat split; auto.
  eapply Forall_impl; [|exact Hall]. cbv beta.
  intros m (Hc & Ha & He & _). auto.
Qed.

Lemma write_blocks_aligned_witness :
  exists marks,
    write_marks (values sample_container) fresh_writer = Ok marks /\
    last marks fresh_writer = sample_archive /\
    List.length marks = (2 * List.length (values sample_container) + 1)%nat /\
    Forall (fun m => len (file m) mod 4 = 0 /\ bytes_written m = len (file m) /\
                     exists tail, file sample_archive = file m ++ tail) marks.
Proof.
  apply (write_blocks_aligned sample_container sample_archive).
  vm_compute. reflexivity.
Defined.

(** ** The checksum field *)

Lemma byte_sum_nonneg (payload : bytes) : 0 <= byte_sum payload.
Proof.
  induction payload as [|x payload IH]; cbn [byte_sum fold_right]; [lia|].
  fold (byte_sum payload). unfold ord. lia.
Qed.

Lemma land_32 (n : Z) : Z.land n 4294967295 = n mod 2 ^ 32.
Proof. change 4294967295 with (Z.ones 32). apply Z.land_ones. lia. Qed.

Lemma format_08x_digits (n : Z) :
  0 <= n < 16 ^ 8 ->
  all_lower_hex (format_08x n) /\ digits_from 0 (format_08x n) = n.
Proof.
  intros Hn. rewrite format_08x_nonneg by lia.
  destruct (padded_spec 8 n) as (Hall & _ & Hval & _); [simpl; lia | lia |].
  split; assumption.
Qed.

Lemma arithmetic_sum_from (payload : bytes) (acc : Z) :
  fold_left (fun acc x => acc + Z.of_N (Byte.to_N x)) payload acc
  = acc + byte_sum payload.
Proof.
  revert acc. induction payload as [|x payload IH]; intros acc;
    cbn [fold_left byte_sum fold_right]; [lia|].
  fold (byte_sum payload). rewrite IH. unfold ord. lia.
Qed.

Lemma byte_sum_arithmetic (payload : bytes) : byte_sum payload = arithmetic_sum payload.
Proof. unfold arithmetic_sum. now rewrite arithmetic_sum_from. Qed.

Lemma lower_hex_digit_value (c : byte) :
  is_lower_hex c = true ->
  is_underscore c = false /\ digit_value c = lower_hex_digit c.
Proof. destruct c; intros H; try discriminate H; split; reflexivity. Qed.

Lemma lower_hex_value_from (s : bytes) :
  all_lower_hex s ->
  forall acc, fold_left (fun acc c => 16 * acc + lower_hex_digit c) s acc
              = digits_from acc s.
Proof.
  unfold digits_from.
  induction 1 as [|c s Hc _ IH]; intros acc; [reflexivity|].
  cbn [fold_left]. destruct (lower_hex_digit_value c Hc) as [-> ->].
  replace (acc * 16 + lower_hex_digit c) with (16 * acc + lower_hex_digit c) by lia.
  apply IH.
Qed.

Lemma lower_hex_value_digits (s : bytes) :
  all_lower_hex s -> lower_hex_value s = digits_from 0 s.
Proof. intros H. unfold lower_hex_value. now apply lower_hex_value_from. Qed.

(** C3.  In the record [write] emits for an entry, the eight bytes after
    the first 102 are the checksum field.  Without [has_crc] they are
    [00000000]; with it they are eight lowercase hexadecimal digits, and
    the number they write is the arithmetic sum of the payload bytes modulo
    2^32 (sum and hexadecimal value as the spec words them, not as [write]
    computes them). *)
Theorem checksum_law (entry : CpioEntry) (w w' : writer) :
  write_entry entry w = Ok w' ->
  exists front check back,
    file w' = file w ++ front ++ check ++ back /\
    len front = 102 /\ len check = 8 /\
    check = c_check (entry_header entry) /\
    (has_crc entry = false -> check = B "00000000") /\
    (has_crc entry = true ->
     all_lower_hex check /\
     lower_hex_value check = arithmetic_sum (data entry) mod 2 ^ 32).
Proof.
  unfold write_entry, write_name_block.
  destruct (serialize (entry_header entry)) as [raw| |] eqn:Hs; try discriminate.
  cbn [bind]. intros [= <-].
  apply serialize_ok in Hs.
  destruct Hs as (Hraw & H1 & H2 & H3 & H4 & H5 & H6 & H7 & H8 & H9 & H10 & H11).
  set (h := entry_header entry) in *.
  exists (c_magic h ++ c_ino h ++ c_mode h ++ c_uid h ++ c_gid h ++ c_nlink h ++
          c_mtime h ++ c_filesize h ++ c_dev h ++ c_namesize h).
  exists (c_check h). eexists. split; [|split; [|split; [|split; [|split]]]].
  - unfold write_data_block, write_padding, put. cbn [file bytes_written].
    rewrite Hraw. rewrite <- !app_assoc. reflexivity.
  - rewrite !len_app. lia.
  - exact H11.
  - reflexivity.
  - intros Hcrc. subst h. cbn [entry_header c_check]. now rewrite Hcrc.
  - intros Hcrc. subst h. cbn [entry_header c_check]. rewrite Hcrc.
    rewrite land_32, byte_sum_arithmetic.
    pose proof (Z.mod_pos_bound (arithmetic_sum (data entry)) (2 ^ 32) ltac:(lia)) as Hm.
    destruct (format_08x_digits (arithmetic_sum (data entry) mod 2 ^ 32)) as [Hall Hval];
      [change (16 ^ 8) with (2 ^ 32); lia|].
    split; [exact Hall|]. now rewrite lower_hex_value_digits.
Qed.

(** On [etc/hosts] with the payload [127.0.0.1 localhost], whose bytes add
    up to 1438 = 0x59e, the field is [0000059e]. *)
Lemma checksum_law_witness :
  (exists front check back,
     file sample_written = file fresh_writer ++ front ++ check ++ back /\
     len front = 102 /\ len check = 8 /\
     check = c_check (entry_header (sample_file_entry "etc/hosts" 8)) /\
     (has_crc (sample_file_entry "etc/hosts" 8) = false -> check = B "00000000") /\
     (has_crc (sample_file_entry "etc/hosts" 8) = true ->
      all_lower_hex check /\
      lower_hex_value check
      = arithmetic_sum (data (sample_file_entry "etc/hosts" 8)) mod 2 ^ 32)) /\
  c_check (entry_header (sample_file_entry "etc/hosts" 8)) = B "0000059e" /\
  arithmetic_sum (B "127.0.0.1 localhost") = 1438 /\
  lower_hex_value (B "0000059e") = 1438.
Proof.
  split.
  - apply (checksum_law (sample_file_entry "etc/hosts" 8) fresh_writer sample_written).
    vm_compute. reflexivity.
  - repeat split; reflexivity.
Defined.

Lemma byte_sum_repeat (x : byte) (n : nat) :
  byte_sum (repeat x n) = Z.of_nat n * ord x.
Proof.
  induction n as [|n IH]; [reflexivity|].
  cbn [repeat byte_sum fold_right]. fold (byte_sum (repeat x n)). rewrite IH. lia.
Qed.

(** The sum is truncated, not saturated: 16843010 bytes [255] add up to
    2^32 + 254, and the field reads [000000fe]. *)
Lemma checksum_wraps (entry : CpioEntry) :
  has_crc entry = true ->
  data entry = repeat "255"%byte (Z.to_nat 16843010) ->
  arithmetic_sum (data entry) = 2 ^ 32 + 254 /\
  c_check (entry_header entry) = B "000000fe".
Proof.
  intros Hcrc Hdata. split.
  - rewrite <- byte_sum_arithmetic, Hdata, byte_sum_repeat, Z2Nat.id by lia.
    reflexivity.
  - cbn [entry_header c_check]. rewrite Hcrc, Hdata, byte_sum_repeat, Z2Nat.id by lia.
    reflexivity.
Qed.

(** ** What [open] returns *)

Lemma read_exact (n : Z) (stream chunk stream' : bytes) :
  read n stream = (chunk, stream') -> 0 <= n <= len stream ->
  len chunk = n /\ len stream' = len stream - n.
Proof.
  unfold read. destruct (Z.ltb_spec n 0) as [H|H]; [lia|].
  intros [= <- <-] Hn. unfold len in *.
  rewrite length_firstn, length_skipn. lia.
Qed.

Lemma deserialize_ok (stream stream' : bytes) (h : CpioNewcHeader) :
  deserialize stream = Ok (h, stream') ->
  len (c_magic h) = 6 /\ len (c_ino h) = 8 /\ len (c_mode h) = 8 /\
  len (c_uid h) = 8 /\ len (c_gid h) = 8 /\ len (c_nlink h) = 8 /\
  len (c_mtime h) = 8 /\ len (c_filesize h) = 8 /\ len (c_dev h) = 32 /\
  len (c_namesize h) = 8 /\ len (c_check h) = 8 /\
  (List.length stream' < List.length stream)%nat.
Proof.
  unfold deserialize.
  destruct (read header_size stream) as [raw s'] eqn:H0.
  destruct (Z.ltb_spec (len raw) header_size) as [Hshort|Hlong]; [discriminate|].
  pose proof (read_len _ _ _ _ H0 ltac:(unfold header_size; lia)) as Hraw.
  pose proof (read_split _ _ _ _ H0) as Hsplit.
  unfold header_size in *.
  destruct (read 6 raw) as [f1 r1] eqn:E1.
  destruct (read 8 r1) as [f2 r2] eqn:E2.
  destruct (read 8 r2) as [f3 r3] eqn:E3.
  destruct (read 8 r3) as [f4 r4] eqn:E4.
  destruct (read 8 r4) as [f5 r5] eqn:E5.
  destruct (read 8 r5) as [f6 r6] eqn:E6.
  destruct (read 8 r6) as [f7 r7] eqn:E7.
  destruct (read 8 r7) as [f8 r8] eqn:E8.
  destruct (read 32 r8) as [f9 r9] eqn:E9.
  destruct (read 8 r9) as [f10 r10] eqn:E10.
  destruct (read 8 r10) as [f11 r11] eqn:E11.
  intros [= <- <-]. cbn [c_magic c_ino c_mode c_uid c_gid c_nlink c_mtime
                         c_filesize c_dev c_namesize c_check].
  apply read_exact in E1; [|lia]. destruct E1 as [? ?].
  apply read_exact in E2; [|lia]. destruct E2 as [? ?].
  apply read_exact in E3; [|lia]. destruct E3 as [? ?].
  apply read_exact in E4; [|lia]. destruct E4 as [? ?].
  apply read_exact in E5; [|lia]. destruct E5 as [? ?].
  apply read_exact in E6; [|lia]. destruct E6 as [? ?].
  apply read_exact in E7; [|lia]. destruct E7 as [? ?].
  apply read_exact in E8; [|lia]. destruct E8 as [? ?].
  apply read_exact in E9; [|lia]. destruct E9 as [? ?].
  apply read_exact in E10; [|lia]. destruct E10 as [? ?].
  apply read_exact in E11; [|lia]. destruct E11 as [? ?].
  repeat (split; [assumption|]).
  rewrite Hsplit, length_app. unfold len in *. lia.
Qed.

Lemma open_loop_nil (fuel : nat) (data_processed : Z)
  (entries result : CpioEntryContainer) :
  open_loop fuel [] data_processed entries <> Ok result.
Proof. destruct fuel; discriminate. Qed.

Lemma read_padding_nil (n : Z) : read_padding [] n = (padding_of n, []).
Proof. unfold read_padding. now rewrite read_nil. Qed.

Lemma assoc_get_none (k : string) (l : list (string * CpioEntry)) :
  assoc_get k l = None <-> ~ In k (map fst l).
Proof.
  induction l as [|[k0 v0] l IH]; cbn [assoc_get map fst In]; [tauto|].
  destruct (String.eqb_spec k0 k) as [->|Hne].
  - split; [discriminate | tauto].
  - rewrite IH. tauto.
Qed.

Lemma assoc_set_in_key (k : string) (v : CpioEntry) (l : list (string * CpioEntry))
  (kv : string * CpioEntry) :
  In kv (assoc_set k v l) -> kv = (k, v) \/ In kv l.
Proof.
  induction l as [|[k0 v0] l IH]; cbn [assoc_set In].
  - intros [<-|[]]. now left.
  - destruct (String.eqb_spec k0 k) as [->|Hne]; cbn [In].
    + intros [<-|H]; [now left | now right; right].
    + intros [<-|H]; [now right; left|]. destruct (IH H); [now left | now right; right].
Qed.

Lemma setitem_parsed (e : CpioEntry) (self : CpioEntryContainer) :
  well_formed e -> parsed self -> parsed (setitem (name e) e self).
Proof.
  intros He [Hnd Hall]. unfold parsed, keys in *. cbn [setitem items]. split.
  - destruct (assoc_get (name e) (items self)) as [old|] eqn:Hget.
    + now rewrite (assoc_set_present _ _ _ _ Hget).
    + rewrite assoc_set_absent, map_app by assumption. cbn [map fst].
      apply assoc_get_none in Hget.
      apply NoDup_app_remove_l with (l := []). cbn [app].
      apply NoDup_rev in Hnd.
      rewrite <- (rev_involutive (map fst (items self) ++ [name e])).
      apply NoDup_rev. rewrite rev_app_distr. cbn [rev app].
      constructor; [|exact Hnd]. now rewrite <- in_rev.
  - rewrite Forall_forall in *. intros kv Hin.
    apply assoc_set_in_key in Hin. destruct Hin as [->|Hin]; [|now apply Hall].
    cbn [fst snd]. split; [reflexivity | exact He].
Qed.

Ltac bind_ok H :=
  match type of H with
  | bind ?r _ = Ok _ =>
      let E := fresh "E" in
      destruct r eqn:E; cbn [bind] in H; [|discriminate H..]
  end.

Lemma int_field_fits (field : bytes) (z : Z) :
  int_field field = Ok z -> len field = 8 -> fits_08x z.
Proof.
  unfold int_field. destruct (int16 field) eqn:E; [|discriminate].
  intros [= <-] Hlen. eapply int16_fits; [eassumption | lia].
Qed.

Lemma decode_ok (raw : bytes) (s : string) :
  decode raw = Ok s -> utf8_valid (encode s) = true /\ encode s = raw.
Proof.
  unfold decode, encode. destruct (utf8_valid raw) eqn:E; [|discriminate].
  intros [= <-]. now rewrite list_byte_of_string_of_list_byte.
Qed.

Lemma len_removelast (raw : bytes) : len (removelast raw) + 1 <= Z.max (len raw) 1.
Proof.
  destruct raw as [|x raw] using rev_ind; [cbn; lia|].
  rewrite removelast_last, len_app. unfold len. cbn. lia.
Qed.

Lemma land_permissions_idem (n : Z) :
  Z.land (Z.land n ModeMask.permissions) ModeMask.permissions
  = Z.land n ModeMask.permissions.
Proof. now rewrite <- Z.land_assoc, Z.land_diag. Qed.

(** One turn of the loop, read backwards: what a turn that goes on
    must have seen. *)
Lemma open_loop_parsed (fuel : nat) :
  forall (file : bytes) (data_processed : Z) (entries result : CpioEntryContainer),
    open_loop fuel file data_processed entries = Ok result ->
    parsed entries -> parsed result.
Proof.
  induction fuel as [|fuel IH]; intros file dp entries result H Hp; [discriminate|].
  cbn [open_loop] in H.
  bind_ok H. destruct a as [header file1].
  apply deserialize_ok in E.
  destruct E as (_ & Hino & Hmode & Huid & Hgid & Hnlink & Hmtime & Hsize & Hdev
                 & Hnsize & _ & _).
  bind_ok H. rename a into crc.
  bind_ok H. rename a into data_size. apply int_field_fits in E0; [|assumption].
  bind_ok H. rename a into name_size. apply int_field_fits in E1; [|assumption].
  bind_ok H. rename a into mode_raw.
  bind_ok H. rename a into ino. apply int_field_fits in E3; [|assumption].
  bind_ok H. rename a into uid0. apply int_field_fits in E4; [|assumption].
  bind_ok H. rename a into gid0. apply int_field_fits in E5; [|assumption].
  bind_ok H. rename a into nlinks. apply int_field_fits in E6; [|assumption].
  bind_ok H. rename a into mtime. apply int_field_fits in E7; [|assumption].
  destruct (read name_size file1) as [raw_name file2] eqn:Hread1.
  bind_ok H. rename a into nm. apply decode_ok in E8. destruct E8 as [Hutf Henc].
  unfold read_padding in H.
  destruct (read (padding_of (dp + header_size + name_size)) file2)
    as [pad1 file3] eqn:Hread2.
  destruct (String.eqb_spec nm trailer_signature) as [Htr|Hntr].
  { injection H as <-. exact Hp. }
  destruct (read data_size file3) as [payload file4] eqn:Hread3.
  bind_ok H. rename a into ftype.
  destruct (Z.ltb_spec (len payload) data_size) as [Hshort|Hlong]; [discriminate|].
  destruct (read (padding_of _) file4) as [pad2 file5] eqn:Hread4.
  (* a negative size reads to the end, and the next turn has no header *)
  assert (Hns : 0 <= name_size).
  { destruct (Z_lt_le_dec name_size 0) as [Hneg|]; [|assumption]. exfalso.
    apply read_negative in Hread1; [|assumption]. subst file2.
    rewrite read_nil in Hread2. injection Hread2 as <- <-.
    rewrite read_nil in Hread3. injection Hread3 as <- <-.
    rewrite read_nil in Hread4. injection Hread4 as <- <-.
    eapply open_loop_nil; eassumption. }
  assert (Hds : 0 <= data_size).
  { destruct (Z_lt_le_dec data_size 0) as [Hneg|]; [|assumption]. exfalso.
    apply read_negative in Hread3; [|assumption]. subst file4.
    rewrite read_nil in Hread4. injection Hread4 as <- <-.
    eapply open_loop_nil; eassumption. }
  apply IH in H; [exact H|]. apply setitem_parsed with (e := Build_CpioEntry _ _ _ _ _ _ _ _ _ _ _ _);
    [|exact Hp].
  pose proof (read_len _ _ _ _ Hread1 Hns) as Hl1.
  pose proof (read_len _ _ _ _ Hread3 Hds) as Hl3.
  pose proof (len_removelast raw_name) as Hrl.
  unfold fits_08x in E0, E1.
  constructor; cbn [name data mode file_type uid gid number_of_links
                    modification_time size has_crc inode dev]; try assumption.
  - rewrite Henc. lia.
  - lia.
  - lia.
  - symmetry. apply land_permissions_idem.
  - exists mtime. split; [reflexivity | assumption].
Qed.

Lemma empty_parsed : parsed empty_container.
Proof. split; constructor. Qed.

Lemma open_parsed (stream : bytes) (result : CpioEntryContainer) :
  open stream = Ok result -> parsed result.
Proof. intros H. eapply open_loop_parsed; [exact H | apply empty_parsed]. Qed.

(** ** Writing a well-formed entry and reading it back *)

Lemma land_permissions_range (n : Z) : 0 <= Z.land n ModeMask.permissions < 4096.
Proof.
  unfold ModeMask.permissions. change 4095 with (Z.ones 12).
  rewrite Z.land_ones by lia. apply Z.mod_pos_bound. lia.
Qed.

Lemma mode_and_type (m : Z) (t : FileTypes) :
  m = Z.land m ModeMask.permissions ->
  Z.land (Z.lor m (FileTypes_value t)) ModeMask.permissions = m /\
  Z.land (Z.lor m (FileTypes_value t)) ModeMask.file_type = FileTypes_value t /\
  0 <= Z.lor m (FileTypes_value t) < 65536.
Proof.
  intros Hm. pose proof (land_permissions_range m) as Hr. rewrite <- Hm in Hr.
  assert (H1 : Z.land (FileTypes_value t) ModeMask.permissions = 0)
    by (destruct t; reflexivity).
  assert (H2 : Z.land (FileTypes_value t) ModeMask.file_type = FileTypes_value t)
    by (destruct t; reflexivity).
  assert (H3 : Z.land m ModeMask.file_type = 0).
  { rewrite Hm, <- Z.land_assoc. change (Z.land ModeMask.permissions ModeMask.file_type) with 0.
    apply Z.land_0_r. }
  assert (H4 : Z.land m (FileTypes_value t) = 0).
  { rewrite Hm, <- Z.land_assoc, (Z.land_comm ModeMask.permissions), H1.
    apply Z.land_0_r. }
  repeat split.
  - now rewrite Z.land_lor_distr_l, H1, Z.lor_0_r.
  - now rewrite Z.land_lor_distr_l, H2, H3, Z.lor_0_l.
  - apply Z.lor_nonneg. split; [lia | destruct t; cbn; lia].
  - pose proof (Z.add_lor_land m (FileTypes_value t)) as Hadd. rewrite H4 in Hadd.
    destruct t; cbn in *; lia.
Qed.

Lemma FileTypes_of_value (t : FileTypes) : FileTypes_of (FileTypes_value t) = Ok t.
Proof. destruct t; reflexivity. Qed.

Lemma int_field_format (n : Z) : fits_08x n -> int_field (format_08x n) = Ok n.
Proof. intros H. unfold int_field. now rewrite int16_format_08x. Qed.

Lemma fits_nonneg (n : Z) : 0 <= n < 16 ^ 8 -> fits_08x n.
Proof. unfold fits_08x. lia. Qed.

Lemma len_name_encoded (s : string) :
  len (encode s ++ ["000"%byte]) = len (encode s) + 1.
Proof. now rewrite len_app. Qed.

Lemma len_zeros (n : Z) : 0 <= n -> len (zeros n) = n.
Proof. intros H. unfold zeros. rewrite len_repeat. lia. Qed.

Lemma concat_header_length (h : CpioNewcHeader) :
  serialize h = Ok (List.concat (header_fields h)) ->
  len (List.concat (header_fields h)) = header_size.
Proof. apply serialize_length. Qed.

Lemma write_padding_file (w : writer) :
  counted w -> file (write_padding w) = file w ++ zeros (padding_of (len (file w))).
Proof. unfold counted, write_padding, put, zeros. cbn [file]. now intros ->. Qed.

Lemma read_padding_zeros (stream : bytes) (n : Z) :
  read_padding (zeros (padding_of n) ++ stream) n = (padding_of n, stream).
Proof.
  unfold read_padding. rewrite read_app; [reflexivity|].
  apply len_zeros. apply padding_of_range.
Qed.

Lemma decode_encode (s : string) :
  utf8_valid (encode s) = true -> decode (encode s) = Ok s.
Proof.
  intros H. unfold decode. rewrite H. unfold encode.
  now rewrite string_of_list_byte_of_string.
Qed.

Lemma magic_of_has_crc (crc : bool) :
  magic_has_crc (if crc then B "070702" else B "070701") = Ok crc.
Proof. destruct crc; reflexivity. Qed.

Lemma entry_eta (e : CpioEntry) (t : Z) :
  modification_time e = TimeInt t -> size e = len (data e) ->
  {| name := name e; data := data e; mode := mode e; file_type := file_type e;
     uid := uid e; gid := gid e; number_of_links := number_of_links e;
     modification_time := TimeInt t; size := len (data e); has_crc := has_crc e;
     inode := inode e; dev := dev e |}
  = e.
Proof. destruct e; cbn. now intros <- <-. Qed.

(** *** One well-formed entry *)

Section WellFormedEntry.

Variable e : CpioEntry.
Hypothesis He : well_formed e.

Lemma entry_header_serialize :
  serialize (entry_header e) = Ok (List.concat (header_fields (entry_header e))).
Proof.
  destruct He as [Hutf Hntr Hnlen Hsize Hdlen Hmode Hino Huid Hgid Hnlink
                  (t & Ht & Hfit) Hdev].
  pose proof (len_nonneg (data e)). pose proof (len_nonneg (encode (name e))).
  destruct (mode_and_type (mode e) (file_type e) Hmode) as (_ & _ & Hlor).
  apply serialize_widths; cbn [entry_header c_magic c_ino c_mode c_uid c_gid c_nlink
    c_mtime c_filesize c_dev c_namesize c_check];
    try (apply format_08x_length; try assumption).
  - destruct (has_crc e); reflexivity.
  - apply fits_nonneg. change (16 ^ 8) with 4294967296. lia.
  - rewrite Ht. exact Hfit.
  - apply fits_nonneg. lia.
  - assumption.
  - rewrite len_name_encoded. apply fits_nonneg. lia.
  - destruct (has_crc e); [|reflexivity]. apply format_08x_length.
    rewrite land_32. apply fits_nonneg. change (16 ^ 8) with (2 ^ 32).
    apply Z.mod_pos_bound. lia.
Qed.

Lemma write_entry_record (w : writer) :
  counted w -> aligned w ->
  exists w',
    write_entry e w = Ok w' /\ file w' = file w ++ record_of e /\
    counted w' /\ aligned w'.
Proof.
  intros Hc Ha. pose proof entry_header_serialize as Hs.
  unfold write_entry, write_name_block. rewrite Hs. cbn [bind].
  eexists. split; [reflexivity|].
  pose proof (concat_header_length _ Hs) as Hlen.
  set (hdr := List.concat (header_fields (entry_header e))) in *.
  set (nm := encode (name e) ++ ["000"%byte]).
  assert (Hc1 : counted (put nm (len nm) (put hdr header_size w))).
  { apply put_counted. rewrite <- Hlen. now apply put_counted. }
  destruct (write_padding_counted _ Hc1) as [Hc2 Ha2].
  assert (Hc3 : counted (put (data e) (len (data e))
                           (write_padding (put nm (len nm) (put hdr header_size w)))))
    by now apply put_counted.
  destruct (write_padding_counted _ Hc3) as [Hc4 Ha4].
  split; [|split; assumption].
  unfold write_data_block. rewrite (write_padding_file _ Hc3).
  unfold aligned in Ha, Ha2.
  cbn [put file]. rewrite len_app, (padding_of_shift _ _ Ha2).
  rewrite (write_padding_file _ Hc1). cbn [put file].
  rewrite <- !app_assoc, len_app, len_app, Hlen, (padding_of_shift _ _ Ha).
  reflexivity.
Qed.

(** One turn of the loop on the record of a well-formed entry. *)
Lemma open_loop_record (fuel : nat) (stream : bytes)
  (data_processed : Z) (entries : CpioEntryContainer) :
  data_processed mod 4 = 0 ->
  exists data_processed',
    data_processed' mod 4 = 0 /\
    open_loop (S fuel) (record_of e ++ stream) data_processed entries
    = open_loop fuel stream data_processed' (setitem (name e) e entries).
Proof.
  intros Hdp. pose proof entry_header_serialize as Hs.
  destruct He as [Hutf Hntr Hnlen Hsize Hdlen Hmode Hino Huid Hgid Hnlink
                  (t & Ht & Hfit) Hdev].
  pose proof (len_nonneg (data e)) as Hd0.
  pose proof (len_nonneg (encode (name e))) as Hn0.
  destruct (mode_and_type (mode e) (file_type e) Hmode) as (Hperm & Htype & Hlor).
  set (nm := encode (name e) ++ ["000"%byte]) in *.
  assert (Hnm : len nm = len (encode (name e)) + 1) by apply len_name_encoded.
  assert (Hrl : removelast nm = encode (name e)) by apply removelast_last.
  eexists. split; cycle 1.
  - cbn [open_loop]. unfold record_of. fold nm. cbv zeta. rewrite <- !app_assoc.
    rewrite (deserialize_serialize _ _ _ Hs). cbn [bind].
    cbn [entry_header c_magic c_ino c_mode c_uid c_gid c_nlink
         c_mtime c_filesize c_dev c_namesize c_check]. fold nm.
    rewrite magic_of_has_crc. cbn [bind].
    rewrite (int_field_format (len (data e))) by (apply fits_nonneg; lia).
    cbn [bind].
    rewrite (int_field_format (len nm)) by (apply fits_nonneg; lia).
    cbn [bind].
    rewrite (int_field_format (Z.lor (mode e) (FileTypes_value (file_type e))))
      by (apply fits_nonneg; change (16 ^ 8) with 4294967296; lia).
    cbn [bind].
    rewrite !int_field_format by (try rewrite Ht; assumption). cbn [bind].
    rewrite (read_app (len nm) nm) by reflexivity.
    rewrite Hrl, (decode_encode _ Hutf). cbn [bind].
    replace (data_processed + header_size + len nm)
      with (data_processed + (header_size + len nm)) by lia.
    rewrite <- (padding_of_shift data_processed (header_size + len nm) Hdp) at 1.
    rewrite read_padding_zeros.
    destruct (String.eqb_spec (name e) trailer_signature) as [Heq|_]; [contradiction|].
    rewrite (read_app (len (data e)) (data e)) by reflexivity.
    rewrite Htype, FileTypes_of_value. cbn [bind]. rewrite Z.ltb_irrefl.
    rewrite Hperm, Ht. cbn [int_of_time]. rewrite (entry_eta e t Ht Hsize).
    pose proof (padding_of_aligns (data_processed + (header_size + len nm))) as Hal.
    rewrite <- (padding_of_shift _ (len (data e)) Hal) at 1.
    rewrite read_padding_zeros. reflexivity.
  - apply padding_of_aligns.
Qed.

End WellFormedEntry.



(** ** The trailer *)

Lemma trailer_header_serialize :
  serialize trailer_header = Ok (List.concat (header_fields trailer_header)).
Proof. reflexivity. Qed.

Lemma write_trailer_record (w : writer) :
  counted w -> aligned w ->
  exists w', write_trailer w = Ok w' /\ file w' = file w ++ trailer_record.
Proof.
  intros Hc Ha. unfold write_trailer, write_name_block.
  rewrite trailer_header_serialize. cbn [bind]. eexists. split; [reflexivity|].
  set (hdr := List.concat (header_fields trailer_header)).
  set (nm := encode trailer_signature ++ ["000"%byte]).
  assert (Hc1 : counted (put nm (len nm) (put hdr header_size w))).
  { apply put_counted. change header_size with (len hdr). now apply put_counted. }
  rewrite (write_padding_file _ Hc1). cbn [put file].
  rewrite <- !app_assoc, len_app, len_app. unfold aligned in Ha.
  rewrite (padding_of_shift _ _ Ha). reflexivity.
Qed.

Lemma open_loop_trailer (fuel : nat) (stream : bytes) (data_processed : Z)
  (entries : CpioEntryContainer) :
  data_processed mod 4 = 0 ->
  open_loop (S fuel) (trailer_record ++ stream) data_processed entries = Ok entries.
Proof.
  intros Hdp. cbn [open_loop]. unfold trailer_record.
  set (nm := encode trailer_signature ++ ["000"%byte]). cbv zeta.
  rewrite <- !app_assoc.
  rewrite (deserialize_serialize _ _ _ trailer_header_serialize). cbn [bind].
  change (magic_has_crc (c_magic trailer_header)) with (Ok false).
  change (int_field (c_filesize trailer_header)) with (Ok 0).
  change (int_field (c_namesize trailer_header)) with (Ok (len nm)).
  change (int_field (c_mode trailer_header)) with (Ok 0).
  change (int_field (c_ino trailer_header)) with (Ok 0).
  change (int_field (c_uid trailer_header)) with (Ok 0).
  change (int_field (c_gid trailer_header)) with (Ok 0).
  change (int_field (c_nlink trailer_header)) with (Ok 0).
  change (int_field (c_mtime trailer_header)) with (Ok 0).
  cbn [bind]. rewrite (read_app (len nm) nm) by reflexivity.
  change (decode (removelast nm)) with (Ok trailer_signature). cbn [bind].
  replace (data_processed + header_size + len nm)
    with (data_processed + (header_size + len nm)) by lia.
  rewrite <- (padding_of_shift data_processed (header_size + len nm) Hdp) at 1.
  rewrite read_padding_zeros. reflexivity.
Qed.

(** ** All the records, one after the other *)

Lemma record_of_nonempty (e : CpioEntry) : (1 <= List.length (record_of e))%nat.
Proof.
  unfold record_of. cbv zeta. rewrite !length_app. cbn [List.length]. lia.
Qed.

Lemma write_then_open (es : list CpioEntry) :
  Forall well_formed es ->
  forall w, counted w -> aligned w ->
    exists w' body,
      bind (write_entries es w) write_trailer = Ok w' /\
      file w' = file w ++ body /\
      (List.length es <= List.length body)%nat /\
      forall fuel stream data_processed entries,
        (List.length es < fuel)%nat -> data_processed mod 4 = 0 ->
        open_loop fuel (body ++ stream) data_processed entries
        = Ok (insert_all es entries).
Proof.
  induction 1 as [|e es He _ IH]; intros w Hc Ha.
  - destruct (write_trailer_record w Hc Ha) as (w' & Hw & Hfile).
    exists w', trailer_record. cbn [write_entries bind].
    repeat split; [assumption.. | cbn; lia |].
    intros [|fuel] stream dp entries Hfuel Hdp; [cbn in Hfuel; lia|].
    now apply open_loop_trailer.
  - destruct (write_entry_record e He w Hc Ha) as (w1 & Hw1 & Hfile1 & Hc1 & Ha1).
    destruct (IH w1 Hc1 Ha1) as (w' & body & Hw & Hfile & Hlen & Hopen).
    exists w', (record_of e ++ body). cbn [write_entries bind]. rewrite Hw1.
    cbn [bind]. repeat split.
    + exact Hw.
    + now rewrite Hfile, Hfile1, app_assoc.
    + pose proof (record_of_nonempty e). rewrite length_app. cbn [List.length]. lia.
    + intros [|fuel] stream dp entries Hfuel Hdp; [cbn in Hfuel; lia|].
      rewrite <- app_assoc.
      destruct (open_loop_record e He fuel (body ++ stream) dp entries Hdp)
        as (dp' & Hdp' & ->).
      cbn [List.length] in Hfuel. rewrite Hopen by (assumption || lia). reflexivity.
Qed.

Lemma insert_all_items (es : list CpioEntry) :
  forall self,
    NoDup (map name es) ->
    (forall e, In e es -> ~ In (name e) (keys self)) ->
    items (insert_all es self) = items self ++ map (fun e => (name e, e)) es.
Proof.
  induction es as [|e es IH]; intros self Hnd Hfresh.
  - cbn. now rewrite app_nil_r.
  - cbn [insert_all fold_left map]. fold (insert_all es (setitem (name e) e self)).
    inversion Hnd as [|? ? Hnotin Hnd']; subst.
    assert (Hset : items (setitem (name e) e self) = items self ++ [(name e, e)]).
    { cbn [setitem items]. apply assoc_set_absent. apply assoc_get_none.
      apply Hfresh. now left. }
    rewrite IH; [now rewrite Hset, <- app_assoc | exact Hnd' |].
    intros e' He'. unfold keys. rewrite Hset, map_app, in_app_iff. cbn [map fst In].
    intros [Hin|[Heq|[]]].
    + apply (Hfresh e'); [now right | exact Hin].
    + apply Hnotin. rewrite Heq. now apply in_map.
Qed.

Lemma parsed_items (self : CpioEntryContainer) :
  parsed self ->
  items self = map (fun e => (name e, e)) (values self) /\
  NoDup (map name (values self)).
Proof.
  intros [Hnd Hall]. unfold keys, values in *.
  assert (Hk : map fst (items self) = map name (map snd (items self))).
  { rewrite map_map. apply map_ext_in. intros kv Hin.
    rewrite Forall_forall in Hall. now destruct (Hall kv Hin). }
  split; [|now rewrite <- Hk].
  rewrite map_map. induction (items self) as [|[k v] l IHl]; [reflexivity|].
  inversion Hall as [|? ? [Hkv _] Hall']; subst. cbn [fst snd] in Hkv. subst k.
  cbn [map snd]. f_equal. apply IHl; [now inversion Hnd | exact Hall' |].
  cbn [map] in Hk. now injection Hk.
Qed.

Lemma round_trip_parsed (self : CpioEntryContainer) :
  parsed self ->
  exists written reread,
    write self = Ok written /\ open written = Ok reread /\
    items reread = items self.
Proof.
  intros Hp. destruct (parsed_items self Hp) as [Hitems Hnd].
  assert (Hwf : Forall well_formed (values self)).
  { destruct Hp as [_ Hall]. unfold values. rewrite Forall_forall in *.
    intros e He. apply in_map_iff in He. destruct He as (kv & <- & Hin).
    now destruct (Hall kv Hin). }
  destruct (write_then_open (values self) Hwf fresh_writer eq_refl eq_refl)
    as (w' & body & Hw & Hfile & Hlen & Hopen).
  exists (file w'), (insert_all (values self) empty_container).
  assert (Hrun : write_run self = Ok w') by exact Hw.
  unfold write. rewrite Hrun. cbn [bind]. split; [reflexivity|].
  split.
  - unfold open. rewrite Hfile. cbn [fresh_writer file app].
    specialize (Hopen (S (List.length body)) [] 0 empty_container
                  ltac:(lia) eq_refl).
    now rewrite app_nil_r in Hopen.
  - rewrite insert_all_items; [symmetry; exact Hitems | exact Hnd |].
    intros e _ [].
Qed.

(** C1.  Whatever [open] returns can be written, what was written can be
    opened, and the container read back has the same names in the same
    order, each with an entry equal to the original one in name, data,
    mode, file type, uid, gid, link count, modification time, size, inode
    and device field. *)
Theorem round_trip (stream : bytes) (entries : CpioEntryContainer) :
  open stream = Ok entries ->
  exists written reread,
    write entries = Ok written /\ open written = Ok reread /\
    keys reread = keys entries /\
    Forall2 same_fields (values entries) (values reread).
Proof.
  intros H. apply open_parsed in H.
  destruct (round_trip_parsed entries H) as (written & reread & Hw & Ho & Hitems).
  exists written, reread. unfold keys, values. rewrite Hitems.
  repeat split; try assumption.
  induction (map snd (items entries)) as [|e l IHl]; constructor; [|exact IHl].
  repeat split.
Qed.

Lemma round_trip_witness :
  exists written reread,
    write sample_container = Ok written /\ open written = Ok reread /\
    keys reread = keys sample_container /\
    Forall2 same_fields (values sample_container) (values reread).
Proof.
  apply (round_trip (file sample_archive) sample_container).
  vm_compute. reflexivity.
Defined.

(** ** The loop of [open] always has turns enough *)

Lemma read_shrinks (n : Z) (stream chunk stream' : bytes) :
  read n stream = (chunk, stream') -> (List.length stream' <= List.length stream)%nat.
Proof.
  intros H. apply read_split in H. rewrite H, length_app. lia.
Qed.

Lemma deserialize_fuel (stream : bytes) : deserialize stream <> OutOfFuel.
Proof.
  unfold deserialize. destruct (read header_size stream) as [raw s].
  destruct (len raw <? header_size); [discriminate|].
  repeat match goal with
         | |- context [read ?n ?s] => destruct (read n s)
         end.
  discriminate.
Qed.

Lemma int_field_fuel (field : bytes) : int_field field <> OutOfFuel.
Proof. unfold int_field. destruct (int16 field); discriminate. Qed.

Lemma magic_has_crc_fuel (magic : bytes) : magic_has_crc magic <> OutOfFuel.
Proof.
  unfold magic_has_crc. destruct (startswith magic _); [discriminate|].
  destruct (startswith magic _); discriminate.
Qed.

Lemma decode_fuel (raw : bytes) : decode raw <> OutOfFuel.
Proof. unfold decode. destruct (utf8_valid raw); discriminate. Qed.

Lemma FileTypes_of_fuel (v : Z) : FileTypes_of v <> OutOfFuel.
Proof. unfold FileTypes_of. destruct (find _ _); discriminate. Qed.

Ltac bind_step lemma :=
  match goal with
  | |- bind ?r _ <> OutOfFuel =>
      let E := fresh "E" in
      destruct r eqn:E; cbn [bind];
      [| discriminate | exfalso; exact (lemma _ E)]
  end.

Lemma open_loop_fuel (fuel : nat) :
  forall (file : bytes) (data_processed : Z) (entries : CpioEntryContainer),
    (List.length file < fuel)%nat ->
    open_loop fuel file data_processed entries <> OutOfFuel.
Proof.
  induction fuel as [|fuel IH]; intros file dp entries Hlen; [lia|].
  cbn [open_loop].
  bind_step deserialize_fuel. destruct a as [header file1].
  apply deserialize_ok in E.
  destruct E as (_ & _ & _ & _ & _ & _ & _ & _ & _ & _ & _ & Hshorter).
  bind_step magic_has_crc_fuel.
  do 8 bind_step int_field_fuel.
  destruct (read _ file1) as [raw_name file2] eqn:R1.
  bind_step decode_fuel.
  unfold read_padding.
  destruct (read _ file2) as [pad1 file3] eqn:R2.
  destruct (String.eqb _ trailer_signature); [discriminate|].
  destruct (read _ file3) as [payload file4] eqn:R3.
  bind_step FileTypes_of_fuel.
  destruct (len payload <? _); [discriminate|].
  destruct (read _ file4) as [pad2 file5] eqn:R4.
  apply IH.
  apply read_shrinks in R1, R2, R3, R4. lia.
Qed.

(** [open] never stops for want of turns: it returns a container or raises. *)
Lemma open_total (stream : bytes) : open stream <> OutOfFuel.
Proof. apply open_loop_fuel. lia. Qed.

(** ** The container [open] returns is one a session can hold *)

Lemma open_loop_inserts (fuel : nat) :
  forall (file : bytes) (data_processed : Z) (entries result : CpioEntryContainer),
    open_loop fuel file data_processed entries = Ok result ->
    exists es, result = insert_all es entries.
Proof.
  induction fuel as [|fuel IH]; intros file dp entries result H; [discriminate|].
  cbn [open_loop] in H.
  bind_ok H. destruct a as [header file1].
  do 9 bind_ok H.
  destruct (read _ file1) as [raw_name file2].
  bind_ok H. unfold read_padding in H.
  destruct (read _ file2) as [pad1 file3].
  destruct (String.eqb _ trailer_signature).
  { injection H as <-. now exists []. }
  destruct (read _ file3) as [payload file4].
  bind_ok H.
  destruct (len payload <? _); [discriminate|].
  destruct (read _ file4) as [pad2 file5].
  apply IH in H. destruct H as [es ->].
  match goal with
  | |- context [setitem _ ?e entries] => exists (e :: es)
  end.
  reflexivity.
Qed.

Lemma run_inserts (es : list CpioEntry) (self : CpioEntryContainer) :
  run (map Insert es) self = insert_all es self.
Proof.
  revert self. induction es as [|e es IH]; intros self; [reflexivity|].
  cbn [map run fold_left insert_all]. apply IH.
Qed.

Lemma open_reachable (stream : bytes) (entries : CpioEntryContainer) :
  open stream = Ok entries -> reachable entries.
Proof.
  intros H. apply open_loop_inserts in H. destruct H as [es ->].
  exists (map Insert es). symmetry. apply run_inserts.
Qed.

(** After [open], and after any delete, every mode holds permission bits
    only. *)
Lemma open_modes (stream : bytes) (entries : CpioEntryContainer) :
  open stream = Ok entries ->
  Forall (fun e => Z.land (mode e) ModeMask.file_type = 0) (values entries).
Proof.
  intros H. apply open_parsed in H. destruct H as [_ Hall].
  unfold values. rewrite Forall_forall in *. intros e He.
  apply in_map_iff in He. destruct He as (kv & <- & Hin).
  destruct (Hall kv Hin) as [_ Hwf]. pose proof (wf_mode _ Hwf) as Hm.
  rewrite Hm, <- Z.land_assoc. apply Z.land_0_r.
Qed.

(** * More of the container *)

(** ** Removing a key *)

Lemma assoc_get_pop_other (k k' : string) (l : list (string * CpioEntry)) :
  k' <> k -> assoc_get k' (assoc_pop k l) = assoc_get k' l.
Proof.
  intros Hne. induction l as [|[k0 v0] l IH]; [reflexivity|].
  cbn [assoc_pop assoc_get]. destruct (String.eqb_spec k0 k) as [->|Hk].
  - destruct (String.eqb_spec k k'); [congruence | reflexivity].
  - cbn [assoc_get]. now rewrite IH.
Qed.

Lemma assoc_pop_keys (k : string) (l : list (string * CpioEntry)) :
  NoDup (map fst l) ->
  map fst (assoc_pop k l) = filter (fun x => negb (String.eqb x k)) (map fst l).
Proof.
  induction l as [|[k0 v0] l IH]; [reflexivity|]. cbn [map fst]. intros Hnd.
  inversion Hnd as [|? ? Hnotin Hnd']; subst.
  cbn [assoc_pop filter]. destruct (String.eqb_spec k0 k) as [->|Hk]; cbn [negb].
  - symmetry. apply forallb_filter_id. apply forallb_forall. intros x Hx.
    destruct (String.eqb_spec x k) as [->|]; [contradiction | reflexivity].
  - cbn [map fst]. now rewrite IH.
Qed.

Lemma assoc_get_pop_same (k : string) (l : list (string * CpioEntry)) :
  NoDup (map fst l) -> assoc_get k (assoc_pop k l) = None.
Proof.
  intros Hnd. apply assoc_get_none. rewrite assoc_pop_keys by assumption.
  rewrite filter_In. intros [_ H]. now rewrite String.eqb_refl in H.
Qed.

Lemma assoc_set_nodup (k : string) (v : CpioEntry) (l : list (string * CpioEntry)) :
  NoDup (map fst l) -> NoDup (map fst (assoc_set k v l)).
Proof.
  intros Hnd. destruct (assoc_get k l) as [old|] eqn:Hget.
  - now rewrite (assoc_set_present _ _ _ _ Hget).
  - rewrite assoc_set_absent, map_app by assumption. cbn [map fst].
    apply assoc_get_none in Hget. apply NoDup_rev in Hnd.
    rewrite <- (rev_involutive (map fst l ++ [k])).
    apply NoDup_rev. rewrite rev_app_distr. cbn [rev app].
    constructor; [now rewrite <- in_rev | exact Hnd].
Qed.

(** ** Names stay distinct, and every entry stays under its own name *)

Lemma setitem_named (e : CpioEntry) (self : CpioEntryContainer) :
  named self -> named (setitem (name e) e self).
Proof.
  intros [Hnd Hall]. unfold named, keys in *. cbn [setitem items].
  split; [now apply assoc_set_nodup|].
  rewrite Forall_forall in *. intros kv Hin.
  apply assoc_set_in_key in Hin. destruct Hin as [->|Hin]; [reflexivity | now apply Hall].
Qed.

Lemma pop_named (k : string) (self : CpioEntryContainer) :
  named self -> named (pop k self).
Proof.
  intros [Hnd Hall]. unfold named, keys in *. cbn [pop items]. split.
  - rewrite assoc_pop_keys by assumption. now apply NoDup_filter.
  - rewrite Forall_forall in *. intros kv Hin. apply Hall.
    eapply assoc_pop_in; eassumption.
Qed.

Lemma assoc_get_named (k : string) (v : CpioEntry) (l : list (string * CpioEntry)) :
  Forall (fun kv => fst kv = name (snd kv)) l ->
  assoc_get k l = Some v -> name v = k.
Proof.
  induction 1 as [|[k0 v0] l Hkv _ IH]; cbn [assoc_get]; [discriminate|].
  destruct (String.eqb_spec k0 k) as [->|_]; [|exact IH].
  intros [= <-]. now cbn in Hkv.
Qed.

Lemma mutate_named (k : string) (v old : CpioEntry) (self : CpioEntryContainer) :
  getitem k self = Some old -> name v = name old ->
  named self -> named (mutate k v self).
Proof.
  intros Hget Hname [Hnd Hall]. unfold named, keys, getitem in *.
  cbn [mutate items]. split; [now apply assoc_set_nodup|].
  pose proof (assoc_get_named _ _ _ Hall Hget) as Hk.
  rewrite Forall_forall in *. intros kv Hin.
  apply assoc_set_in_key in Hin. destruct Hin as [->|Hin]; [|now apply Hall].
  cbn [fst snd]. congruence.
Qed.

(** What [modify_entry] puts in the place of the entry it found. *)
Lemma modify_entry_result (archive_path : string)
  (update_uid update_gid update_mode : option Z) (update_data : option bytes)
  (self : CpioEntryContainer) (entry : CpioEntry) :
  getitem archive_path self = Some entry ->
  exists e,
    after (modify_entry archive_path update_uid update_gid update_mode update_data self)
    = mutate archive_path e self /\
    name e = name entry /\ file_type e = file_type entry /\
    number_of_links e = number_of_links entry /\
    modification_time e = modification_time entry /\
    has_crc e = has_crc entry /\ inode e = inode entry /\ dev e = dev entry /\
    uid e = or_else update_uid (uid entry) /\
    gid e = or_else update_gid (gid entry) /\
    mode e = or_else update_mode (mode entry) /\
    data e = (if data_accepted entry update_data then or_else update_data []
              else data entry) /\
    size e = (if data_accepted entry update_data then len (or_else update_data [])
              else size entry).
Proof.
  intros Hget. unfold modify_entry, data_accepted. rewrite Hget.
  destruct update_data as [d|]; [destruct (FileTypes_eqb (file_type entry) regular)|];
    destruct update_uid; destruct update_gid; destruct update_mode;
    cbn [after]; eexists; (split; [reflexivity|]); repeat split.
Qed.

Lemma apply_op_named (op : operation) (self : CpioEntryContainer) :
  named self -> named (apply_op op self).
Proof.
  intros H. destruct op as [entry|path ap|ap|ap u g m d]; cbn [apply_op].
  - now apply setitem_named.
  - destruct (returned (add_entry path ap self)) as [[|]|x|] eqn:Hr;
      try (rewrite add_entry_else by congruence; exact H).
    destruct (add_entry_true _ _ _ Hr) as (_ & _ & e & Hc & ->).
    destruct (classify_keeps _ _ _ Hc) as (Hn & _).
    cbn [new_entry name] in Hn.
    replace ap with (name (set_size e (len (data e)))) at 1 by exact Hn.
    now apply setitem_named.
  - unfold delete_entry. destruct (contains ap self); cbn [after];
      [now apply pop_named | exact H].
  - destruct (getitem ap self) as [entry|] eqn:Hget.
    + destruct (modify_entry_result ap u g m d self entry Hget) as (e & -> & Hn & _).
      eapply mutate_named; eassumption.
    + unfold modify_entry. rewrite Hget. exact H.
Qed.

Lemma run_named (ops : list operation) :
  forall self, named self -> named (run ops self).
Proof.
  induction ops as [|op ops IH]; intros self H; [exact H|].
  apply IH, apply_op_named, H.
Qed.

Lemma empty_named : named empty_container.
Proof. split; constructor. Qed.

(** X1.  In every container a session can hold, the names are distinct and
    every entry is stored under its own name. *)
Theorem reachable_names_unique (self : CpioEntryContainer) :
  reachable self ->
  NoDup (keys self) /\
  forall key entry, getitem key self = Some entry -> name entry = key.
Proof.
  intros [ops ->]. destruct (run_named ops _ empty_named) as [Hnd Hall].
  split; [exact Hnd|]. intros key entry Hget.
  eapply assoc_get_named; eassumption.
Qed.

Lemma reachable_names_unique_witness :
  NoDup (keys sample_container) /\
  forall key entry, getitem key sample_container = Some entry -> name entry = key.
Proof.
  apply (reachable_names_unique sample_container).
  exists [Insert (sample_dir_entry "etc" 7); Insert (sample_file_entry "etc/hosts" 8)].
  reflexivity.
Defined.

(** X2.  Deleting a path that is present returns [True] and removes that
    entry only: the path is gone, every other path keeps its entry and its
    place, the next free inode stays, and deleting the same path again
    returns [False] with a warning and changes nothing.  Entries below a
    deleted directory are not looked at. *)
Theorem delete_entry_removes_one (archive_path : string) (self : CpioEntryContainer) :
  reachable self -> contains archive_path self = true ->
  let out := delete_entry archive_path self in
  returned out = Ok true /\
  contains archive_path (after out) = false /\
  (forall other, other <> archive_path ->
                 getitem other (after out) = getitem other self) /\
  keys (after out) = filter (fun k => negb (String.eqb k archive_path)) (keys self) /\
  _inode_next (after out) = _inode_next self /\
  returned (delete_entry archive_path (after out)) = Ok false /\
  after (delete_entry archive_path (after out)) = after out /\
  logged (delete_entry archive_path (after out))
  = [(WARNING, [Str archive_path; Lit " not found in the archive"])].
Proof.
  intros Hr Hin out. subst out. destruct Hr as [ops ->].
  destruct (run_named ops _ empty_named) as [Hnd _].
  set (self := run ops empty_container) in *.
  assert (Hfirst : delete_entry archive_path self
                   = {| returned := Ok true; after := pop archive_path self;
                        logged := [(INFO, [Lit "Removing "; Str archive_path;
                                           Lit " from the archive"])] |})
    by (unfold delete_entry; now rewrite Hin).
  assert (Hgone : contains archive_path (pop archive_path self) = false).
  { apply contains_getitem. unfold getitem. cbn [pop items].
    now apply assoc_get_pop_same. }
  assert (Hsecond : delete_entry archive_path (pop archive_path self)
                    = {| returned := Ok false; after := pop archive_path self;
                         logged := [(WARNING, [Str archive_path;
                                               Lit " not found in the archive"])] |})
    by (unfold delete_entry; now rewrite Hgone).
  rewrite Hfirst. cbn [returned after]. rewrite Hsecond. cbn [returned after logged].
  repeat split; try assumption.
  - intros other Hne. unfold getitem. cbn [pop items]. now apply assoc_get_pop_other.
  - unfold keys. cbn [pop items]. now apply assoc_pop_keys.
Qed.

Lemma delete_entry_removes_one_witness :
  let out := delete_entry "etc" sample_container in
  returned out = Ok true /\
  contains "etc" (after out) = false /\
  (forall other, other <> "etc"%string ->
                 getitem other (after out) = getitem other sample_container) /\
  keys (after out) = filter (fun k => negb (String.eqb k "etc")) (keys sample_container) /\
  _inode_next (after out) = _inode_next sample_container /\
  returned (delete_entry "etc" (after out)) = Ok false /\
  after (delete_entry "etc" (after out)) = after out /\
  logged (delete_entry "etc" (after out))
  = [(WARNING, [Str "etc"; Lit " not found in the archive"])].
Proof.
  apply (delete_entry_removes_one "etc" sample_container).
  - exists [Insert (sample_dir_entry "etc" 7); Insert (sample_file_entry "etc/hosts" 8)].
    reflexivity.
  - reflexivity.
Defined.

(** ** [add_entry], all its outcomes *)


(** X4.  The entry a successful add stores has no checksum flag and takes
    its type and data from the first test that holds: a regular file (also
    when reached through a symlink) gives type regular and the file's
    content; else a symlink gives type symlink and the encoded link target;
    else a directory gives type directory and no data. *)
Theorem add_entry_content (path : local_path) (archive_path : string)
  (self : CpioEntryContainer) :
  returned (add_entry path archive_path self) = Ok true ->
  exists e,
    getitem archive_path (after (add_entry path archive_path self)) = Some e /\
    has_crc e = false /\
    (file_type e, data e)
    = (if path_is_file path then (regular, path_read_bytes path)
       else if path_is_symlink path then (symlink, encode (path_readlink path))
       else (directory, [])).
Proof.
  intros H. destruct (add_entry_true _ _ _ H) as (_ & _ & e & Hc & Hafter).
  rewrite Hafter. exists (set_size e (len (data e))).
  split; [apply assoc_get_set_same|].
  unfold classify in Hc.
  destruct (path_is_file path); [|destruct (path_is_symlink path);
    [|destruct (path_is_dir path); [|discriminate]]];
    injection Hc as <-; split; reflexivity.
Qed.

Lemma add_entry_content_witness :
  exists e,
    getitem "etc/passwd" (after (add_entry sample_file "etc/passwd" sample_container))
    = Some e /\
    has_crc e = false /\
    (file_type e, data e)
    = (if path_is_file sample_file then (regular, path_read_bytes sample_file)
       else if path_is_symlink sample_file
            then (symlink, encode (path_readlink sample_file))
            else (directory, [])).
Proof.
  apply (add_entry_content sample_file "etc/passwd" sample_container). reflexivity.
Defined.

(** ** [size] and [data] *)

Lemma values_setitem (k : string) (v e : CpioEntry) (self : CpioEntryContainer) :
  In e (values (setitem k v self)) -> e = v \/ In e (values self).
Proof.
  unfold values. cbn [setitem items]. intros H. apply in_map_iff in H.
  destruct H as (kv & <- & Hin). apply assoc_set_in in Hin.
  destruct Hin as [->|Hin]; [now left | right; now apply in_map].
Qed.

Lemma apply_op_sized (op : operation) (self : CpioEntryContainer) :
  op_sized op -> Forall sized (values self) -> Forall sized (values (apply_op op self)).
Proof.
  intros Hop H. rewrite Forall_forall in *.
  destruct op as [entry|path ap|ap|ap u g m d]; cbn [apply_op].
  - intros e He. apply values_setitem in He. destruct He as [->|He]; auto.
  - destruct (returned (add_entry path ap self)) as [[|]|x|] eqn:Hr;
      try (rewrite add_entry_else by congruence; exact H).
    destruct (add_entry_true _ _ _ Hr) as (_ & _ & e0 & _ & ->).
    intros e He. apply values_setitem in He. destruct He as [->|He]; auto.
    reflexivity.
  - unfold delete_entry. destruct (contains ap self); cbn [after]; [|exact H].
    intros e He. apply H. unfold values in *. cbn [pop items] in He.
    apply in_map_iff in He. destruct He as (kv & <- & Hin).
    apply in_map. eapply assoc_pop_in; eassumption.
  - destruct (getitem ap self) as [entry|] eqn:Hget.
    + destruct (modify_entry_result ap u g m d self entry Hget)
        as (e0 & -> & _ & _ & _ & _ & _ & _ & _ & _ & _ & _ & Hd & Hs).
      intros e He. change (values (mutate ap e0 self))
        with (values (setitem ap e0 self)) in He.
      apply values_setitem in He. destruct He as [->|He]; auto.
      unfold sized. rewrite Hd, Hs.
      destruct (data_accepted entry d); [reflexivity|].
      apply H. unfold getitem in Hget. apply assoc_get_in in Hget.
      destruct Hget as [k0 Hin]. unfold values. apply in_map_iff.
      now exists (k0, entry).
    + unfold modify_entry. rewrite Hget. exact H.
Qed.

Lemma run_sized (ops : list operation) :
  forall self, Forall op_sized ops -> Forall sized (values self) ->
               Forall sized (values (run ops self)).
Proof.
  induction ops as [|op ops IH]; intros self Hops H; [exact H|].
  inversion Hops; subst. apply IH; [assumption|]. now apply apply_op_sized.
Qed.

(** X5.  When every entry put in by assignment has [size] equal to the
    length of its [data] (as the entries [open] builds have), every entry
    of the container has, after any sequence of adds, deletes and
    modifies. *)
Theorem size_follows_data (ops : list operation) :
  Forall op_sized ops ->
  Forall (fun e => size e = len (data e)) (values (run ops empty_container)).
Proof. intros H. apply (run_sized ops empty_container H). constructor. Qed.

Lemma size_follows_data_witness :
  Forall (fun e => size e = len (data e))
         (values (run [Insert (sample_dir_entry "etc" 7);
                       Add sample_file "etc/hosts";
                       Modify "etc/hosts" None None None (Some (B "::1 localhost"));
                       Delete "etc"] empty_container)).
Proof.
  apply (size_follows_data
           [Insert (sample_dir_entry "etc" 7); Add sample_file "etc/hosts";
            Modify "etc/hosts" None None None (Some (B "::1 localhost"));
            Delete "etc"]).
  repeat constructor.
Defined.


(** * More of the codec *)

(** ** A run of records *)

Lemma records_cons (e : CpioEntry) (es : list CpioEntry) :
  records (e :: es) = record_of e ++ records es.
Proof. reflexivity. Qed.

Lemma records_length (es : list CpioEntry) :
  (List.length es <= List.length (records es))%nat.
Proof.
  induction es as [|e es IH]; [cbn; lia|].
  rewrite records_cons, length_app. pose proof (record_of_nonempty e).
  cbn [List.length]. lia.
Qed.

Lemma open_loop_records (es : list CpioEntry) :
  Forall well_formed es ->
  forall fuel stream data_processed entries,
    data_processed mod 4 = 0 ->
    exists data_processed',
      data_processed' mod 4 = 0 /\
      open_loop (List.length es + fuel) (records es ++ stream) data_processed entries
      = open_loop fuel stream data_processed' (insert_all es entries).
Proof.
  induction 1 as [|e es He _ IH]; intros fuel stream dp entries Hdp.
  - exists dp. split; [assumption | reflexivity].
  - rewrite records_cons, <- app_assoc. cbn [List.length Nat.add].
    destruct (open_loop_record e He (List.length es + fuel) (records es ++ stream)
                dp entries Hdp) as (dp1 & Hdp1 & ->).
    destruct (IH fuel stream dp1 (setitem (name e) e entries) Hdp1) as (dp2 & Hdp2 & ->).
    exists dp2. split; [assumption | reflexivity].
Qed.

(** [open] on a stream that starts with records: the loop reaches the rest
    of the stream with turns to spare. *)
Lemma open_after_records (es : list CpioEntry) (stream : bytes) :
  Forall well_formed es ->
  exists fuel data_processed,
    data_processed mod 4 = 0 /\
    open (records es ++ stream)
    = open_loop (S fuel) stream data_processed (insert_all es empty_container).
Proof.
  intros Hes. pose proof (records_length es) as Hlen.
  destruct (open_loop_records es Hes
              (S (List.length (records es) - List.length es + List.length stream))
              stream 0 empty_container eq_refl) as (dp & Hdp & Heq).
  eexists. exists dp. split; [exact Hdp|]. rewrite <- Heq. unfold open.
  f_equal. rewrite length_app. lia.
Qed.

Lemma write_entries_records (es : list CpioEntry) :
  Forall well_formed es ->
  forall w, counted w -> aligned w ->
    exists w',
      write_entries es w = Ok w' /\ file w' = file w ++ records es /\
      counted w' /\ aligned w'.
Proof.
  induction 1 as [|e es He _ IH]; intros w Hc Ha.
  - exists w. cbn. rewrite app_nil_r. auto.
  - destruct (write_entry_record e He w Hc Ha) as (w1 & Hw1 & Hf1 & Hc1 & Ha1).
    destruct (IH w1 Hc1 Ha1) as (w' & Hw & Hf & Hc' & Ha').
    exists w'. cbn [write_entries]. rewrite Hw1. cbn [bind].
    repeat split; try assumption.
    now rewrite Hf, Hf1, records_cons, app_assoc.
Qed.

(** X6.  For entries as [open] builds them, what [write] leaves in the
    stream is the records of the entries in the container's order followed
    by the trailer record, and the record of an entry is the same bytes
    wherever the entry stands. *)
Theorem write_image (entries : CpioEntryContainer) :
  Forall well_formed (values entries) ->
  write entries = Ok (records (values entries) ++ trailer_record).
Proof.
  intros H.
  destruct (write_entries_records _ H fresh_writer eq_refl eq_refl)
    as (w1 & Hw1 & Hf1 & Hc1 & Ha1).
  destruct (write_trailer_record w1 Hc1 Ha1) as (w2 & Hw2 & Hf2).
  unfold write, write_run. rewrite Hw1. cbn [bind]. rewrite Hw2. cbn [bind].
  now rewrite Hf2, Hf1.
Qed.

Lemma write_image_witness :
  write sample_container = Ok (records (values sample_container) ++ trailer_record).
Proof.
  apply (write_image sample_container).
  repeat constructor; cbn; try lia; try reflexivity; try discriminate;
    eexists; (split; [reflexivity | split; lia]).
Defined.

Lemma open_to_trailer (es : list CpioEntry) (junk : bytes) :
  Forall well_formed es ->
  open (records es ++ trailer_record ++ junk) = Ok (insert_all es empty_container).
Proof.
  intros Hes. destruct (open_after_records es (trailer_record ++ junk) Hes)
    as (fuel & dp & Hdp & ->).
  now apply open_loop_trailer.
Qed.

(** X7.  [open] reads the records in order, assigns each entry under its
    name, stops at the trailer and does not read what follows it. *)
Theorem open_records (es : list CpioEntry) (junk : bytes) :
  Forall well_formed es ->
  open (records es ++ trailer_record ++ junk) = Ok (insert_all es empty_container).
Proof. apply open_to_trailer. Qed.

Lemma sample_entries_well_formed :
  Forall well_formed [sample_dir_entry "etc" 7; sample_file_entry "etc/hosts" 8].
Proof.
  repeat constructor; cbn; try lia; try reflexivity; try discriminate;
    eexists; (split; [reflexivity | split; lia]).
Qed.

Lemma open_records_witness :
  open (records [sample_dir_entry "etc" 7; sample_file_entry "etc/hosts" 8]
        ++ trailer_record ++ B "anything")
  = Ok (insert_all [sample_dir_entry "etc" 7; sample_file_entry "etc/hosts" 8]
          empty_container).
Proof.
  apply (open_records [sample_dir_entry "etc" 7; sample_file_entry "etc/hosts" 8]
           (B "anything")).
  repeat constructor; cbn; try lia; try reflexivity; try discriminate;
    eexists; (split; [reflexivity | split; lia]).
Defined.

(** ** Records with the same name *)

Lemma insert_all_app (es1 es2 : list CpioEntry) (self : CpioEntryContainer) :
  insert_all (es1 ++ es2) self = insert_all es2 (insert_all es1 self).
Proof. unfold insert_all. apply fold_left_app. Qed.

Lemma insert_all_get_other (es : list CpioEntry) :
  forall key self,
    Forall (fun x => name x <> key) es ->
    getitem key (insert_all es self) = getitem key self.
Proof.
  induction es as [|x es IH]; intros key self H; [reflexivity|].
  inversion H as [|? ? Hx Hes]; subst.
  cbn [insert_all fold_left]. fold (insert_all es (setitem (name x) x self)).
  rewrite IH by assumption. unfold getitem. cbn [setitem items].
  apply assoc_get_set_other. congruence.
Qed.

Lemma insert_all_next (es : list CpioEntry) :
  forall self,
    _inode_next self <= _inode_next (insert_all es self) /\
    Forall (fun x => inode x < _inode_next (insert_all es self)) es.
Proof.
  induction es as [|x es IH]; intros self; [cbn; split; [lia | constructor]|].
  cbn [insert_all fold_left]. fold (insert_all es (setitem (name x) x self)).
  destruct (IH (setitem (name x) x self)) as [Hle Hall].
  destruct (setitem_next (name x) x self) as [H1 H2].
  split; [lia|]. constructor; [lia | exact Hall].
Qed.

(** X8.  When several records carry the same name, the container [open]
    returns holds that name once, with the entry of the last such record;
    and the next free inode is above the inode of every record read, the
    replaced ones included. *)
Theorem open_same_name_records (front back : list CpioEntry) (e : CpioEntry)
  (junk : bytes) :
  Forall well_formed (front ++ e :: back) ->
  Forall (fun x => name x <> name e) back ->
  exists entries,
    open (records (front ++ e :: back) ++ trailer_record ++ junk) = Ok entries /\
    getitem (name e) entries = Some e /\
    NoDup (keys entries) /\
    Forall (fun x => inode x < _inode_next entries) (front ++ e :: back).
Proof.
  intros Hwf Hback. exists (insert_all (front ++ e :: back) empty_container).
  split; [now apply open_to_trailer|]. split; [|split].
  - change (e :: back) with ([e] ++ back). rewrite !insert_all_app.
    rewrite insert_all_get_other by assumption.
    cbn [insert_all fold_left]. unfold getitem. cbn [setitem items].
    apply assoc_get_set_same.
  - rewrite <- run_inserts. apply (run_named _ _ empty_named).
  - apply insert_all_next.
Qed.

Lemma open_same_name_records_witness :
  exists entries,
    open (records ([sample_file_entry "etc" 3] ++ sample_dir_entry "etc" 1 ::
                   [sample_file_entry "etc/hosts" 2])
          ++ trailer_record ++ []) = Ok entries /\
    getitem (name (sample_dir_entry "etc" 1)) entries = Some (sample_dir_entry "etc" 1) /\
    NoDup (keys entries) /\
    Forall (fun x => inode x < _inode_next entries)
           ([sample_file_entry "etc" 3] ++ sample_dir_entry "etc" 1 ::
            [sample_file_entry "etc/hosts" 2]).
Proof.
  apply (open_same_name_records [sample_file_entry "etc" 3]
           [sample_file_entry "etc/hosts" 2] (sample_dir_entry "etc" 1) []).
  - repeat constructor; cbn; try lia; try reflexivity; try discriminate;
      eexists; (split; [reflexivity | split; lia]).
  - repeat constructor. discriminate.
Defined.

(** ** Streams [open] refuses *)

Lemma startswith_firstn (prefix s : bytes) :
  startswith (firstn (List.length prefix) s) prefix = startswith s prefix.
Proof.
  revert s. induction prefix as [|p prefix IH]; intros s; [now destruct s|].
  destruct s as [|c s]; [reflexivity|]. cbn [List.length firstn startswith].
  now rewrite IH.
Qed.

Lemma read_nonneg (n : Z) (stream : bytes) :
  0 <= n -> read n stream = (firstn (Z.to_nat n) stream, skipn (Z.to_nat n) stream).
Proof. intros H. unfold read. destruct (Z.ltb_spec n 0); [lia | reflexivity]. Qed.

Lemma deserialize_magic (stream : bytes) :
  header_size <= len stream ->
  exists h rest, deserialize stream = Ok (h, rest) /\ c_magic h = firstn 6 stream.
Proof.
  intros Hlen. unfold deserialize, header_size in *.
  rewrite (read_nonneg 110) by lia.
  assert (Hrl : len (firstn (Z.to_nat 110) stream) = 110).
  { unfold len in *. rewrite length_firstn. lia. }
  rewrite Hrl, Z.ltb_irrefl. rewrite (read_nonneg 6) by lia.
  repeat match goal with
         | |- context [read ?n ?s] => destruct (read n s)
         end.
  eexists. eexists. split; [reflexivity|]. cbn [c_magic].
  rewrite firstn_firstn. reflexivity.
Qed.

(** X9.  A stream that holds at least a header's worth of bytes and starts
    with neither [070701] nor [070702] makes [open] raise [ValueError]. *)
Theorem open_wrong_magic (stream : bytes) :
  header_size <= len stream ->
  startswith stream (B "070701") = false ->
  startswith stream (B "070702") = false ->
  open stream = Raise ValueError.
Proof.
  intros Hlen H1 H2. destruct (deserialize_magic stream Hlen) as (h & rest & Hd & Hm).
  unfold open. cbn [open_loop]. rewrite Hd. cbn [bind].
  unfold magic_has_crc. rewrite Hm.
  rewrite (startswith_firstn (B "070701") stream
           : startswith (firstn 6 stream) (B "070701") = _), H1.
  rewrite (startswith_firstn (B "070702") stream
           : startswith (firstn 6 stream) (B "070702") = _), H2.
  reflexivity.
Qed.

Lemma open_wrong_magic_witness :
  open (B "070707" ++ repeat "0"%byte 104) = Raise ValueError.
Proof.
  apply (open_wrong_magic (B "070707" ++ repeat "0"%byte 104));
    [vm_compute; discriminate | reflexivity | reflexivity].
Defined.

(** ** A payload cut short *)

Section TruncatedRecord.

Variable e : CpioEntry.
Hypothesis He : well_formed e.

Variable short : bytes.
Hypothesis Hshort : len short < len (data e).

Lemma read_short : read (len (data e)) short = (short, []).
Proof.
  rewrite read_nonneg by apply len_nonneg. unfold len in *.
  rewrite Nat2Z.id. rewrite firstn_all2, skipn_all2 by lia. reflexivity.
Qed.

Lemma open_loop_truncated (fuel : nat) (data_processed : Z)
  (entries : CpioEntryContainer) :
  data_processed mod 4 = 0 ->
  open_loop (S fuel) (record_head e ++ short) data_processed entries
  = Raise ValueError.
Proof.
  intros Hdp. pose proof (entry_header_serialize e He) as Hs.
  destruct He as [Hutf Hntr Hnlen Hsize Hdlen Hmode Hino Huid Hgid Hnlink
                  (t & Ht & Hfit) Hdev].
  pose proof (len_nonneg (data e)) as Hd0.
  pose proof (len_nonneg (encode (name e))) as Hn0.
  destruct (mode_and_type (mode e) (file_type e) Hmode) as (Hperm & Htype & Hlor).
  set (nm := encode (name e) ++ ["000"%byte]) in *.
  assert (Hnm : len nm = len (encode (name e)) + 1) by apply len_name_encoded.
  assert (Hrl : removelast nm = encode (name e)) by apply removelast_last.
  cbn [open_loop]. unfold record_head. fold nm. cbv zeta. rewrite <- !app_assoc.
  rewrite (deserialize_serialize _ _ _ Hs). cbn [bind].
  cbn [entry_header c_magic c_ino c_mode c_uid c_gid c_nlink
       c_mtime c_filesize c_dev c_namesize c_check]. fold nm.
  rewrite magic_of_has_crc. cbn [bind].
  rewrite (int_field_format (len (data e))) by (apply fits_nonneg; lia).
  cbn [bind].
  rewrite (int_field_format (len nm)) by (apply fits_nonneg; lia).
  cbn [bind].
  rewrite (int_field_format (Z.lor (mode e) (FileTypes_value (file_type e))))
    by (apply fits_nonneg; change (16 ^ 8) with 4294967296; lia).
  cbn [bind].
  rewrite !int_field_format by (try rewrite Ht; assumption). cbn [bind].
  rewrite (read_app (len nm) nm) by reflexivity.
  rewrite Hrl, (decode_encode _ Hutf). cbn [bind].
  replace (data_processed + header_size + len nm)
    with (data_processed + (header_size + len nm)) by lia.
  rewrite <- (padding_of_shift data_processed (header_size + len nm) Hdp) at 1.
  rewrite read_padding_zeros.
  destruct (String.eqb_spec (name e) trailer_signature) as [Heq|_]; [contradiction|].
  rewrite read_short, Htype, FileTypes_of_value. cbn [bind].
  destruct (Z.ltb_spec (len short) (len (data e))) as [_|Hge]; [reflexivity | lia].
Qed.

End TruncatedRecord.

(** X10.  A stream that ends inside the payload of a record (after any
    number of whole records) makes [open] raise [ValueError]. *)
Theorem open_truncated_payload (es : list CpioEntry) (e : CpioEntry) (short : bytes) :
  Forall well_formed es -> well_formed e ->
  len short < len (data e) ->
  open (records es ++ record_head e ++ short) = Raise ValueError.
Proof.
  intros Hes He Hshort.
  destruct (open_after_records es (record_head e ++ short) Hes)
    as (fuel & dp & Hdp & ->).
  now apply open_loop_truncated.
Qed.

Lemma open_truncated_payload_witness :
  open (records [sample_dir_entry "etc" 7] ++
        record_head (sample_file_entry "etc/hosts" 8) ++ B "127.0.0.1")
  = Raise ValueError.
Proof.
  apply (open_truncated_payload [sample_dir_entry "etc" 7]
           (sample_file_entry "etc/hosts" 8) (B "127.0.0.1")).
  - repeat constructor; cbn; try lia; try reflexivity; try discriminate;
      eexists; (split; [reflexivity | split; lia]).
  - repeat constructor; cbn; try lia; try reflexivity; try discriminate;
      eexists; (split; [reflexivity | split; lia]).
  - cbn. lia.
Defined.

(** ** What [open] guarantees *)

(** X11.  In a container [open] returns the names are distinct and none is
    [TRAILER!!!]; every entry is stored under its own name, has [size]
    equal to the length of its data, a mode within the permission bits, a
    device field of 32 bytes, and uid, gid, link count, inode, size and
    time that [:08x] prints in eight characters. *)
Theorem open_invariants (stream : bytes) (entries : CpioEntryContainer) :
  open stream = Ok entries ->
  NoDup (keys entries) /\
  forall key e, getitem key entries = Some e ->
    name e = key /\ key <> trailer_signature /\
    size e = len (data e) /\ 0 <= mode e <= ModeMask.permissions /\
    len (dev e) = 32 /\
    fits_08x (uid e) /\ fits_08x (gid e) /\ fits_08x (number_of_links e) /\
    fits_08x (inode e) /\ fits_08x (size e) /\
    exists t, modification_time e = TimeInt t /\ fits_08x t.
Proof.
  intros H. apply open_parsed in H. destruct H as [Hnd Hall].
  split; [exact Hnd|]. intros key e Hget. unfold getitem in Hget.
  assert (Hname : name e = key).
  { eapply assoc_get_named; [|exact Hget]. eapply Forall_impl; [|exact Hall].
    now intros kv [Hk _]. }
  apply assoc_get_in in Hget. destruct Hget as [k0 Hin].
  rewrite Forall_forall in Hall. destruct (Hall _ Hin) as [_ Hwf]. cbn [snd] in Hwf.
  destruct Hwf as [Hutf Hntr Hnlen Hsize Hdlen Hmode Hino Huid Hgid Hnlink Hmtime Hdev].
  pose proof (land_permissions_range (mode e)) as Hr. rewrite <- Hmode in Hr.
  pose proof (len_nonneg (data e)).
  assert (Hfs : fits_08x (size e)) by (rewrite Hsize; unfold fits_08x; lia).
  assert (Hmr : 0 <= mode e <= ModeMask.permissions)
    by (unfold ModeMask.permissions; lia).
  unfold fits_08x in *.
  repeat split; try assumption; try congruence; lia.
Qed.

Lemma open_invariants_witness :
  NoDup (keys sample_container) /\
  forall key e, getitem key sample_container = Some e ->
    name e = key /\ key <> trailer_signature /\
    size e = len (data e) /\ 0 <= mode e <= ModeMask.permissions /\
    len (dev e) = 32 /\
    fits_08x (uid e) /\ fits_08x (gid e) /\ fits_08x (number_of_links e) /\
    fits_08x (inode e) /\ fits_08x (size e) /\
    exists t, modification_time e = TimeInt t /\ fits_08x t.
Proof.
  apply (open_invariants (file sample_archive) sample_container).
  vm_compute. reflexivity.
Defined.

(** ** The trailer *)

Lemma write_entries_counted (es : list CpioEntry) :
  forall w w', write_entries es w = Ok w' -> counted w -> aligned w ->
               counted w' /\ aligned w' /\ extends w' w.
Proof.
  induction es as [|e es IH]; intros w w' H Hc Ha.
  - injection H as <-. auto using extends_refl.
  - cbn [write_entries] in H. unfold write_entry in H.
    destruct (write_name_block _ _ w) as [w1| |] eqn:H1; try discriminate.
    cbn [bind] in H.
    destruct (write_name_block_counted _ _ _ _ H1) as [Hext1 Hca1].
    destruct (Hca1 Hc) as [Hc1 Ha1].
    destruct (write_data_block_counted (data e) w1) as [Hext2 Hca2].
    destruct (Hca2 Hc1) as [Hc2 Ha2].
    destruct (IH _ _ H Hc2 Ha2) as (Hc' & Ha' & Hext').
    repeat split; try assumption.
    eapply extends_trans; [eassumption|]. eapply extends_trans; eassumption.
Qed.

(** X12.  Whatever the entries are, when [write] succeeds the stream ends
    with the trailer record: a header with magic [070701], every number
    zero but the name size 11, then [TRAILER!!!], a NUL and three bytes of
    padding; an empty container gives the trailer record alone. *)
Theorem write_ends_with_trailer (entries : CpioEntryContainer) (out : bytes) :
  write entries = Ok out ->
  (exists body, out = body ++ trailer_record) /\
  (values entries = [] -> out = trailer_record) /\
  trailer_record
  = B "07070100000000000000000000000000000000000000000000000000" ++
    B "000000000000000000000000000000000000000000000b00000000" ++
    B "TRAILER!!!" ++ repeat "000"%byte 4.
Proof.
  unfold write, write_run. intros H.
  destruct (write_entries (values entries) fresh_writer) as [w1| |] eqn:H1;
    try discriminate.
  cbn [bind] in H.
  destruct (write_entries_counted _ _ _ H1 eq_refl eq_refl) as (Hc & Ha & _).
  destruct (write_trailer_record w1 Hc Ha) as (w2 & Hw2 & Hf2).
  rewrite Hw2 in H. cbn [bind] in H. injection H as <-.
  split; [exists (file w1); exact Hf2|]. split; [|reflexivity].
  intros Hnil. rewrite Hnil in H1. injection H1 as <-. exact Hf2.
Qed.

Lemma write_ends_with_trailer_witness :
  (exists body, file sample_archive = body ++ trailer_record) /\
  (values sample_container = [] -> file sample_archive = trailer_record) /\
  trailer_record
  = B "07070100000000000000000000000000000000000000000000000000" ++
    B "000000000000000000000000000000000000000000000b00000000" ++
    B "TRAILER!!!" ++ repeat "000"%byte 4.
Proof.
  apply (write_ends_with_trailer sample_container (file sample_archive)).
  vm_compute. reflexivity.
Defined.

(** ** Header numbers *)

(** X13.  The integers [write] can put in an eight-character field are
    those above -16^7 and below 16^8: for them [:08x] gives eight
    characters that [int(_, 16)] reads back to the same integer, and
    whatever [int(_, 16)] reads from eight bytes is one of them. *)
Theorem header_number_round_trip (n : Z) (field : bytes) :
  (fits_08x n -> len (format_08x n) = 8 /\ int16 (format_08x n) = Some n) /\
  (len (format_08x n) = 8 -> fits_08x n) /\
  (len field = 8 -> int16 field = Some n -> fits_08x n).
Proof.
  split; [|split].
  - intros H. split; [now apply format_08x_length | now apply int16_format_08x].
  - intros Hlen. unfold fits_08x. destruct (Z_lt_le_dec n 0) as [Hneg|Hpos].
    + split; [|lia]. rewrite format_08x_neg in Hlen by assumption.
      destruct (Z_lt_le_dec (- n) (16 ^ 7)) as [|Hbig]; [lia|]. exfalso.
      destruct (hex_digits_spec _ (- n) (hex_fuel (- n) ltac:(lia)) ltac:(lia))
        as (_ & _ & Hval & _).
      fold (hex (- n)) in Hval. specialize (Hval 0).
      pose proof (digits_from_bound (hex (- n))) as Hb.
      destruct (hex_spec (- n) ltac:(lia)) as (Hall & _ & _ & _).
      assert (Hdu : Forall (fun c => digit_or_underscore c = true) (hex (- n))).
      { eapply Forall_impl; [|exact Hall]. intros c Hc.
        apply lower_hex_facts in Hc. unfold digit_or_underscore.
        destruct Hc as (-> & _). reflexivity. }
      specialize (Hb Hdu 0 ltac:(lia)).
      unfold len in Hlen. cbn [List.length] in Hlen.
      rewrite length_app, repeat_length in Hlen.
      assert (Hl7 : len (hex (- n)) <= 7) by (unfold len; lia).
      assert (16 ^ len (hex (- n)) <= 16 ^ 7)
        by (apply Z.pow_le_mono_r; [lia | exact Hl7]).
      rewrite Hval in Hb. lia.
    + split; [lia|]. rewrite format_08x_nonneg in Hlen by assumption.
      destruct (Z_lt_le_dec n (16 ^ 8)) as [|Hbig]; [assumption|]. exfalso.
      destruct (hex_digits_spec _ n (hex_fuel n ltac:(lia)) ltac:(lia))
        as (_ & _ & Hval & _).
      fold (hex n) in Hval. specialize (Hval 0).
      pose proof (digits_from_bound (hex n)) as Hb.
      destruct (hex_spec n ltac:(lia)) as (Hall & _ & _ & _).
      assert (Hdu : Forall (fun c => digit_or_underscore c = true) (hex n)).
      { eapply Forall_impl; [|exact Hall]. intros c Hc.
        apply lower_hex_facts in Hc. unfold digit_or_underscore.
        destruct Hc as (-> & _). reflexivity. }
      specialize (Hb Hdu 0 ltac:(lia)).
      unfold len in Hlen. rewrite length_app, repeat_length in Hlen.
      assert (Hl8 : len (hex n) <= 8) by (unfold len; lia).
      assert (16 ^ len (hex n) <= 16 ^ 8)
        by (apply Z.pow_le_mono_r; [lia | exact Hl8]).
      rewrite Hval in Hb. lia.
  - intros Hlen H. eapply int16_fits; [exact H | lia].
Qed.

(** ** Editing what was opened, then writing it *)

Lemma pop_parsed (k : string) (self : CpioEntryContainer) :
  parsed self -> parsed (pop k self).
Proof.
  intros [Hnd Hall]. unfold parsed, keys in *. cbn [pop items]. split.
  - rewrite assoc_pop_keys by assumption. now apply NoDup_filter.
  - rewrite Forall_forall in *. intros kv Hin. apply Hall.
    eapply assoc_pop_in; eassumption.
Qed.

Lemma parsed_get (k : string) (e : CpioEntry) (self : CpioEntryContainer) :
  parsed self -> getitem k self = Some e -> name e = k /\ well_formed e.
Proof.
  intros [_ Hall] Hget. unfold getitem in Hget. split.
  - eapply assoc_get_named; [|exact Hget]. eapply Forall_impl; [|exact Hall].
    now intros kv [Hk _].
  - apply assoc_get_in in Hget. destruct Hget as [k0 Hin].
    rewrite Forall_forall in Hall. now destruct (Hall _ Hin).
Qed.

Lemma mutate_parsed (k : string) (v old : CpioEntry) (self : CpioEntryContainer) :
  getitem k self = Some old -> name v = name old -> well_formed v ->
  parsed self -> parsed (mutate k v self).
Proof.
  intros Hget Hname Hv Hp. destruct (parsed_get _ _ _ Hp Hget) as [Hk _].
  destruct Hp as [Hnd Hall]. unfold parsed, keys in *. cbn [mutate items].
  split; [now apply assoc_set_nodup|].
  rewrite Forall_forall in *. intros kv Hin.
  apply assoc_set_in_key in Hin. destruct Hin as [->|Hin]; [|now apply Hall].
  cbn [fst snd]. split; [congruence | exact Hv].
Qed.

Lemma land_permissions_small (m : Z) :
  0 <= m <= ModeMask.permissions -> m = Z.land m ModeMask.permissions.
Proof.
  unfold ModeMask.permissions. intros H. change 4095 with (Z.ones 12).
  rewrite Z.land_ones by lia. symmetry. apply Z.mod_small.
  change (2 ^ 12) with 4096. lia.
Qed.

Lemma apply_edit_parsed (op : operation) (self : CpioEntryContainer) :
  edit_in_range op -> parsed self -> parsed (apply_op op self).
Proof.
  intros Hop Hp. destruct op as [entry|path ap|ap|ap u g m d]; cbn [apply_op];
    try contradiction.
  - unfold delete_entry. destruct (contains ap self); cbn [after];
      [now apply pop_parsed | exact Hp].
  - destruct (getitem ap self) as [entry|] eqn:Hget.
    + destruct (modify_entry_result ap u g m d self entry Hget)
        as (e & -> & Hn & Hft & Hnl & Hmt & Hcrc & Hino & Hdev & Hu & Hg & Hm & Hd & Hs).
      destruct (parsed_get _ _ _ Hp Hget) as [_ Hwf].
      destruct Hop as (Hfu & Hfg & Hfm & Hfd).
      eapply mutate_parsed; try eassumption.
      destruct Hwf as [Hutf Hntr Hnlen Hsize Hdlen Hmode Hi Huid Hgid Hnlink Hmtime Hdv].
      constructor; try congruence.
      * rewrite Hd, Hs. destruct (data_accepted entry d); [reflexivity | assumption].
      * rewrite Hd. destruct (data_accepted entry d); assumption.
      * rewrite Hm. destruct m as [m|]; cbn [or_else] in *;
          [now apply land_permissions_small | assumption].
      * rewrite Hu. destruct u; assumption.
      * rewrite Hg. destruct g; assumption.
      * rewrite Hmt. exact Hmtime.
    + unfold modify_entry. rewrite Hget. exact Hp.
Qed.

Lemma run_edits_parsed (ops : list operation) :
  forall self, Forall edit_in_range ops -> parsed self -> parsed (run ops self).
Proof.
  induction ops as [|op ops IH]; intros self Hops Hp; [exact Hp|].
  inversion Hops; subst. apply IH; [assumption|]. now apply apply_edit_parsed.
Qed.

(** X14.  What [open] returned, edited by any sequence of deletes and of
    modifies with values in range, can be written, and [open] on the bytes
    written gives the edited entries back, each equal in every field and
    in the same order. *)
Theorem edit_round_trip (stream : bytes) (entries : CpioEntryContainer)
  (ops : list operation) :
  open stream = Ok entries -> Forall edit_in_range ops ->
  exists written reread,
    write (run ops entries) = Ok written /\ open written = Ok reread /\
    items reread = items (run ops entries).
Proof.
  intros Hopen Hops. apply round_trip_parsed.
  apply run_edits_parsed; [exact Hops | now apply open_parsed in Hopen].
Qed.

Lemma edit_round_trip_witness :
  exists written reread,
    write (run [Modify "etc/hosts" (Some 1000) None (Some 384) (Some (B "::1 localhost"));
                Delete "etc"] sample_container) = Ok written /\
    open written = Ok reread /\
    items reread
    = items (run [Modify "etc/hosts" (Some 1000) None (Some 384)
                    (Some (B "::1 localhost")); Delete "etc"] sample_container).
Proof.
  apply (edit_round_trip (file sample_archive) sample_container
           [Modify "etc/hosts" (Some 1000) None (Some 384) (Some (B "::1 localhost"));
            Delete "etc"]).
  - vm_compute. reflexivity.
  - constructor; [|constructor; [exact I | constructor]].
    unfold edit_in_range, fits_08x, ModeMask.permissions. cbn. lia.
Defined.

Lemma header_number_round_trip_witness :
  (fits_08x 255 -> len (format_08x 255) = 8 /\ int16 (format_08x 255) = Some 255) /\
  (len (format_08x 255) = 8 -> fits_08x 255) /\
  (len (B "000000ff") = 8 -> int16 (B "000000ff") = Some 255 -> fits_08x 255).
Proof. apply (header_number_round_trip 255 (B "000000ff")). Defined.

(** * The command line *)

Lemma parse_loop_started (args : list string) :
  forall cmds c,
    command_group c ->
    exists groups,
      parse_loop args cmds (Some c) = Returns (cmds ++ map Some groups) /\
      List.concat groups = c ++ args /\
      Forall command_group groups /\
      List.length groups = S (List.length (filter has_value args)).
Proof.
  induction args as [|arg rest IH]; intros cmds c Hc.
  - exists [c]. cbn. rewrite !app_nil_r. repeat split. now constructor.
  - cbn [parse_loop filter]. destruct (has_value arg) eqn:Harg.
    + assert (Hg : command_group [arg]) by (exists arg, []; auto).
      destruct (IH (cmds ++ [Some c]) [arg] Hg) as (groups & Hp & Hcat & Hall & Hlen).
      exists (c :: groups). rewrite Hp. cbn [map List.concat List.length].
      rewrite <- app_assoc, Hcat. repeat split; auto.
    + assert (Hg : command_group (c ++ [arg])).
      { destruct Hc as (h & tail & -> & Hh & Ht). exists h, (tail ++ [arg]).
        repeat split; auto. rewrite forallb_app, Ht. cbn [forallb andb].
        now rewrite Harg. }
      destruct (IH cmds (c ++ [arg]) Hg) as (groups & Hp & Hcat & Hall & Hlen).
      exists groups. rewrite Hp, Hcat, <- app_assoc. repeat split; auto.
Qed.

(** X15.  [parse] splits the arguments at the command names and loses
    nothing: when the first argument is a command name it returns one list
    for each command name met, each starting with that name and followed
    by the arguments up to the next command name, and the lists put end to
    end are the arguments.  An argument that spells a command name always
    starts a new command. *)
Theorem parse_groups (arg : string) (rest : list string) :
  has_value arg = true ->
  exists groups,
    parse (arg :: rest) = Returns (map Some groups) /\
    List.concat groups = arg :: rest /\
    Forall command_group groups /\
    List.length groups = List.length (filter has_value (arg :: rest)).
Proof.
  intros Harg. unfold parse. cbn [parse_loop filter]. rewrite Harg.
  assert (Hg : command_group [arg]) by (exists arg, []; auto).
  destruct (parse_loop_started rest [] [arg] Hg) as (groups & Hp & Hcat & Hall & Hlen).
  exists groups. cbn [List.length]. auto.
Qed.

Lemma parse_groups_witness :
  exists groups,
    parse ["add"; "tmp/test"; "./test"; "list"; "delete"; "tmp/old"]%string
    = Returns (map Some groups) /\
    List.concat groups = ["add"; "tmp/test"; "./test"; "list"; "delete"; "tmp/old"]%string /\
    Forall command_group groups /\
    List.length groups
    = List.length (filter has_value
                     ["add"; "tmp/test"; "./test"; "list"; "delete"; "tmp/old"]%string).
Proof.
  apply (parse_groups "add" ["tmp/test"; "./test"; "list"; "delete"; "tmp/old"]%string).
  reflexivity.
Defined.

(** X16.  [parse] ends the process with status 1 exactly when the first
    argument is not a command name; with no argument at all it returns a
    list whose one element is [None]; it never raises. *)
Theorem parse_outcomes (args : list string) :
  (parse args = Exits 1 <->
   exists arg rest, args = arg :: rest /\ has_value arg = false) /\
  (args = [] -> parse args = Returns [None]) /\
  (forall e, parse args <> Raises e) /\
  (forall code, parse args = Exits code -> code = 1).
Proof.
  destruct args as [|arg rest].
  - repeat split; try discriminate.
    intros (a & r & H & _). discriminate H.
  - unfold parse. cbn [parse_loop]. destruct (has_value arg) eqn:Harg.
    + assert (Hg : command_group [arg]) by (exists arg, []; auto).
      destruct (parse_loop_started rest [] [arg] Hg) as (groups & Hp & _).
      rewrite Hp. repeat split; try discriminate.
      intros (a & r & [= <- <-] & Ha). congruence.
    + repeat split; try discriminate.
      * intros _. now exists arg, rest.
      * now intros code [= <-].
Qed.

Lemma parse_outcomes_witness :
  (parse ["tmp/test"; "add"]%string = Exits 1 <->
   exists arg rest, ["tmp/test"; "add"]%string = arg :: rest /\ has_value arg = false) /\
  (["tmp/test"; "add"]%string = [] -> parse ["tmp/test"; "add"]%string = Returns [None]) /\
  (forall e, parse ["tmp/test"; "add"]%string <> Raises e) /\
  (forall code, parse ["tmp/test"; "add"]%string = Exits code -> code = 1).
Proof. apply (parse_outcomes ["tmp/test"; "add"]%string). Defined.

(** * The session *)

Lemma modify_entry_false (archive_path : string)
  (update_uid update_gid update_mode : option Z) (update_data : option bytes)
  (self : CpioEntryContainer) :
  returned (modify_entry archive_path update_uid update_gid update_mode update_data self)
  <> Ok true ->
  after (modify_entry archive_path update_uid update_gid update_mode update_data self)
  = self.
Proof.
  unfold modify_entry. destruct (getitem archive_path self) as [entry|] eqn:Hget;
    [|reflexivity].
  destruct update_data as [d|]; [destruct (FileTypes_eqb (file_type entry) regular)|];
    destruct update_uid; destruct update_gid; destruct update_mode;
    cbn [returned after]; intros H; try congruence;
    destruct self as [l n]; unfold mutate, getitem in *; cbn [items _inode_next] in *;
    f_equal; now apply assoc_set_same.
Qed.

Lemma delete_entry_false (archive_path : string) (self : CpioEntryContainer) :
  returned (delete_entry archive_path self) <> Ok true ->
  after (delete_entry archive_path self) = self.
Proof.
  unfold delete_entry. destruct (contains archive_path self); cbn [returned after];
    [congruence | reflexivity].
Qed.

Section Session.

Variable compress : bytes -> bytes.
Variable decompress : bytes -> result bytes.
Variable absolute : string -> string.

Local Abbreviation save_changes := (Cpio.save_changes compress absolute).
Local Abbreviation run_task := (Cpio.run_task).
Local Abbreviation run_tasks := (Cpio.run_tasks).
Local Abbreviation with_cpio := (Cpio.with_cpio compress absolute).
Local Abbreviation init := (Cpio.init decompress absolute).

Lemma after_call_shape (info : log_record) (out : outcome) (cpio : Cpio.t) :
  (returned out <> Ok true -> after out = Cpio._container cpio) ->
  let s := Cpio.after_call info out cpio in
  Cpio.written s = [] /\
  Cpio._path (Cpio.session s) = Cpio._path cpio /\
  Cpio._use_gzip (Cpio.session s) = Cpio._use_gzip cpio /\
  Cpio._save_to (Cpio.session s) = Cpio._save_to cpio /\
  Cpio._container (Cpio.session s) = after out /\
  (Cpio.ended s = Returns tt <-> returned out = Ok true) /\
  (Cpio.ended s = Exits 1 <-> returned out = Ok false) /\
  (Cpio.ended s = Returns tt ->
   Cpio._changes_pending (Cpio.session s) = true) /\
  (Cpio.ended s <> Returns tt ->
   Cpio.session s = cpio).
Proof.
  intros Hsame. unfold Cpio.after_call.
  destruct (returned out) as [[|]|x|] eqn:Hr; cbn; repeat split;
    try congruence; try discriminate; intros; try congruence;
    rewrite Hsame by congruence; now destruct cpio.
Qed.

Lemma run_task_shape (tk : Cpio.task) (cpio : Cpio.t) :
  let s := run_task tk cpio in
  Cpio.written s = [] /\
  Cpio._path (Cpio.session s) = Cpio._path cpio /\
  Cpio._use_gzip (Cpio.session s) = Cpio._use_gzip cpio /\
  Cpio._save_to (Cpio.session s) = Cpio._save_to cpio /\
  (Cpio.ended s = Returns tt ->
   Cpio._changes_pending (Cpio.session s) = true) /\
  (Cpio.ended s <> Returns tt -> Cpio.session s = cpio).
Proof.
  destruct tk as [file path|path|path u g m d]; cbn [Cpio.run_task].
  - unfold Cpio.add_entry.
    destruct (after_call_shape
                (INFO, [Lit "Add entry "; Str (path_str file); Lit " to ";
                        Str (Cpio._path cpio); Lit " ["; Str path; Lit "]"])
                (add_entry file path (Cpio._container cpio)) cpio
                (add_entry_else _ _ _))
      as (H1 & H2 & H3 & H4 & _ & _ & _ & H5 & H6).
    repeat split; assumption.
  - unfold Cpio.delete_entry.
    destruct (after_call_shape
                (INFO, [Lit "Delete entry "; Str path; Lit " to "; Str (Cpio._path cpio)])
                (delete_entry path (Cpio._container cpio)) cpio
                (delete_entry_false _ _))
      as (H1 & H2 & H3 & H4 & _ & _ & _ & H5 & H6).
    repeat split; assumption.
  - unfold Cpio.modify_entry.
    destruct (after_call_shape
                (INFO, [Lit "Modify entry "; Str path; Lit " in "; Str (Cpio._path cpio)])
                (modify_entry path u g m d (Cpio._container cpio)) cpio
                (modify_entry_false _ _ _ _ _ _))
      as (H1 & H2 & H3 & H4 & _ & _ & _ & H5 & H6).
    repeat split; assumption.
Qed.

Lemma run_tasks_shape (tasks : list Cpio.task) :
  forall cpio,
    let s := run_tasks tasks cpio in
    Cpio.written s = [] /\
    Cpio._path (Cpio.session s) = Cpio._path cpio /\
    Cpio._use_gzip (Cpio.session s) = Cpio._use_gzip cpio /\
    Cpio._save_to (Cpio.session s) = Cpio._save_to cpio /\
    (Cpio._changes_pending cpio = true ->
     Cpio._changes_pending (Cpio.session s) = true).
Proof.
  induction tasks as [|tk rest IH]; intros cpio; cbn [Cpio.run_tasks].
  - cbn. auto.
  - destruct (run_task_shape tk cpio) as (H1 & H2 & H3 & H4 & H5 & H6).
    destruct (Cpio.ended (run_task tk cpio)) as [[]|e|code|] eqn:He.
    + destruct (IH (Cpio.session (run_task tk cpio))) as (I1 & I2 & I3 & I4 & I5).
      cbn. rewrite H1, I1, I2, I3, I4. repeat split; auto.
    + assert (Hs : Cpio.session (run_task tk cpio) = cpio)
        by (apply H6; try rewrite He; discriminate).
      split; [exact H1|]. rewrite Hs. auto.
    + assert (Hs : Cpio.session (run_task tk cpio) = cpio)
        by (apply H6; try rewrite He; discriminate).
      split; [exact H1|]. rewrite Hs. auto.
    + assert (Hs : Cpio.session (run_task tk cpio) = cpio)
        by (apply H6; try rewrite He; discriminate).
      split; [exact H1|]. rewrite Hs. auto.
Qed.

(** X17.  An edit of the session that does not return (the container call
    returned [False], so the process ends with status 1, or it raised)
    leaves the session, container and dirty flag, exactly as it was; an
    edit that returns sets the dirty flag; no edit writes a file. *)
Theorem edit_all_or_nothing (tk : Cpio.task) (cpio : Cpio.t) :
  let s := run_task tk cpio in
  Cpio.written s = [] /\
  (Cpio.ended s = Returns tt -> Cpio._changes_pending (Cpio.session s) = true) /\
  (Cpio.ended s <> Returns tt -> Cpio.session s = cpio) /\
  (forall code, Cpio.ended s = Exits code -> code = 1).
Proof.
  destruct (run_task_shape tk cpio) as (H1 & _ & _ & _ & H5 & H6).
  cbv zeta. repeat split; try assumption.
  intros code. destruct tk as [file path|path|path u g m d];
    cbn [Cpio.run_task]; unfold Cpio.add_entry, Cpio.delete_entry,
    Cpio.modify_entry, Cpio.after_call;
    match goal with
    | |- context [returned ?o] => destruct (returned o) as [[|]|x|]
    end; cbn [Cpio.ended]; congruence.
Qed.

(** X18.  A modify that has nothing to apply ends the process with status
    1 and leaves the session as it was: no option given, only data given
    for an entry that is not a regular file, or a path that is not in the
    archive. *)
Theorem modify_nothing_exits (path : string) (data : option bytes) (cpio : Cpio.t) :
  (forall entry, getitem path (Cpio._container cpio) = Some entry ->
                 data_accepted entry data = false) ->
  let s := Cpio.modify_entry path None None None data cpio in
  Cpio.ended s = Exits 1 /\ Cpio.session s = cpio /\ Cpio.written s = [].
Proof.
  intros H. cbv zeta. unfold Cpio.modify_entry, Cpio.after_call.
  assert (Hr : returned (modify_entry path None None None data (Cpio._container cpio))
               = Ok false).
  { unfold modify_entry.
    destruct (getitem path (Cpio._container cpio)) as [entry|] eqn:Hget; [|reflexivity].
    specialize (H entry eq_refl). unfold data_accepted in H.
    destruct data as [d|]; [rewrite H|]; reflexivity. }
  rewrite Hr. cbn [Cpio.ended Cpio.session Cpio.written].
  rewrite modify_entry_false by (rewrite Hr; discriminate).
  repeat split. now destruct cpio.
Qed.

Lemma save_changes_pending (cpio : Cpio.t) (data : bytes) :
  write (Cpio._container cpio) = Ok data ->
  Cpio._save_to cpio = None -> Cpio._changes_pending cpio = true ->
  save_changes None cpio
  = {| Cpio.session := Cpio.set_changes_pending cpio false;
       Cpio.written := [(Cpio._path cpio,
                         if Cpio._use_gzip cpio then compress data else data)];
       Cpio.lines := [(INFO, [Lit "Saving changes to to "; Str (Cpio._path cpio)])];
       Cpio.ended := Returns tt |}.
Proof.
  intros Hw Hs Hp. unfold Cpio.save_changes. now rewrite Hw, Hs, Hp.
Qed.

(** X19.  Under [with], a session that starts clean and has no other
    destination writes its archive at most once, when the block is left:
    it does exactly when the first command returned, whatever a later
    command did, and what it writes is the container as the commands left
    it (compressed when the session uses gzip).  A command that ends the
    process still ends it, after the edits before it were saved. *)
Theorem with_cpio_saves_edits (tasks : list Cpio.task) (cpio : Cpio.t) (data : bytes) :
  Cpio._changes_pending cpio = false -> Cpio._save_to cpio = None ->
  let s := run_tasks tasks cpio in
  write (Cpio._container (Cpio.session s)) = Ok data ->
  let r := with_cpio (run_tasks tasks) cpio in
  Cpio.ended r = Cpio.ended s /\
  Cpio.written r
  = (if Cpio._changes_pending (Cpio.session s)
     then [(Cpio._path cpio, if Cpio._use_gzip cpio then compress data else data)]
     else []) /\
  Cpio._container (Cpio.session r) = Cpio._container (Cpio.session s) /\
  Cpio._changes_pending (Cpio.session r) = false /\
  (forall tk rest, tasks = tk :: rest ->
     (Cpio._changes_pending (Cpio.session s) = true <->
      Cpio.ended (run_task tk cpio) = Returns tt)).
Proof.
  intros Hclean Hto s Hw r. subst r. unfold Cpio.with_cpio, Cpio.__exit__.
  fold s. destruct (run_tasks_shape tasks cpio) as (H1 & H2 & H3 & H4 & _).
  fold s in H1, H2, H3, H4.
  assert (Hfirst : forall tk rest, tasks = tk :: rest ->
            (Cpio._changes_pending (Cpio.session s) = true <->
             Cpio.ended (run_task tk cpio) = Returns tt)).
  { intros tk rest ->. subst s. cbn [Cpio.run_tasks].
    destruct (run_task_shape tk cpio) as (_ & _ & _ & _ & T5 & T6).
    destruct (Cpio.ended (run_task tk cpio)) as [[]|e|code|] eqn:He.
    - destruct (run_tasks_shape rest (Cpio.session (run_task tk cpio)))
        as (_ & _ & _ & _ & I5).
      cbn [Cpio.session]. split; [reflexivity|]. intros _. apply I5, T5. reflexivity.
    - rewrite T6 by discriminate. rewrite Hclean. split; discriminate.
    - rewrite T6 by discriminate. rewrite Hclean. split; discriminate.
    - rewrite T6 by discriminate. rewrite Hclean. split; discriminate. }
  destruct (Cpio._changes_pending (Cpio.session s)) eqn:Hp.
  - rewrite (save_changes_pending _ data Hw) by congruence.
    cbn [Cpio.ended Cpio.written Cpio.session]. rewrite H1, H2, H3.
    repeat split; try reflexivity; try apply Hfirst; auto.
    all: intros; apply (Hfirst tk rest); assumption.
  - cbn [Cpio.ended Cpio.written Cpio.session]. rewrite H1.
    repeat split; try reflexivity; auto.
    all: intros; apply (Hfirst tk rest); assumption.
Qed.

(** X20.  The first save of a session with something to save or somewhere
    to save it writes one file, at [output] if given, else at the
    session's own path, and clears the dirty flag; a save right after it
    with no destination writes nothing and changes nothing. *)
Theorem save_changes_then_again (output : option string) (cpio : Cpio.t) (data : bytes) :
  write (Cpio._container cpio) = Ok data ->
  Cpio._save_to cpio = None ->
  (output = None -> Cpio._changes_pending cpio = true) ->
  let s1 := save_changes output cpio in
  let s2 := save_changes None (Cpio.session s1) in
  Cpio.written s1
  = [(match output with Some o => absolute o | None => Cpio._path cpio end,
      if Cpio._use_gzip cpio then compress data else data)] /\
  Cpio._changes_pending (Cpio.session s1) = false /\
  Cpio._container (Cpio.session s1) = Cpio._container cpio /\
  Cpio.written s2 = [] /\ Cpio.session s2 = Cpio.session s1 /\
  Cpio.ended s2 = Returns tt.
Proof.
  intros Hw Hto Hp. cbv zeta.
  assert (H1 : save_changes output cpio
               = {| Cpio.session := Cpio.set_changes_pending cpio false;
                    Cpio.written :=
                      [(match output with
                        | Some o => absolute o
                        | None => Cpio._path cpio
                        end, if Cpio._use_gzip cpio then compress data else data)];
                    Cpio.lines :=
                      [(INFO, [Lit "Saving changes to to ";
                               Str (match output with
                                    | Some o => absolute o
                                    | None => Cpio._path cpio
                                    end)])];
                    Cpio.ended := Returns tt |}).
  { unfold Cpio.save_changes. rewrite Hw. destruct output as [o|]; [reflexivity|].
    now rewrite Hto, (Hp eq_refl). }
  rewrite H1. cbn [Cpio.session Cpio.written].
  unfold Cpio.save_changes. cbn [Cpio.set_changes_pending Cpio._container
    Cpio._save_to Cpio._changes_pending Cpio._use_gzip negb].
  rewrite Hw, Hto. cbn [Cpio.written Cpio.session Cpio.ended]. repeat split.
Qed.

Hypothesis decompress_compress : forall data, decompress (compress data) = Ok data.

(** X21.  Provided decompressing undoes compressing: a session whose
    container came from [open] and was edited by deletes and by modifies
    with values in range saves one file, and a session started on that
    file, with the same gzip setting, holds the same entries in the same
    order and is clean. *)
Theorem save_then_load (stream : bytes) (entries : CpioEntryContainer)
  (ops : list operation) (cpio : Cpio.t) (output : string)
  (verbose : bool) (save_to : option string) :
  open stream = Ok entries -> Forall edit_in_range ops ->
  Cpio._container cpio = run ops entries ->
  exists payload cpio',
    Cpio.written (save_changes (Some output) cpio) = [(absolute output, payload)] /\
    Cpio.ended (save_changes (Some output) cpio) = Returns tt /\
    init output payload (Cpio._use_gzip cpio) verbose save_to = Ok cpio' /\
    items (Cpio._container cpio') = items (Cpio._container cpio) /\
    Cpio._changes_pending cpio' = false.
Proof.
  intros Hopen Hops Hc.
  assert (Hp : parsed (Cpio._container cpio)).
  { rewrite Hc. apply run_edits_parsed; [exact Hops | now apply open_parsed in Hopen]. }
  destruct (round_trip_parsed _ Hp) as (image & reread & Hw & Hr & Hitems).
  unfold Cpio.save_changes, Cpio.init. rewrite Hw.
  cbn [Cpio.written Cpio.ended].
  destruct (Cpio._use_gzip cpio); cbn [negb].
  - eexists. eexists. split; [reflexivity|]. split; [reflexivity|].
    rewrite decompress_compress. cbn [bind]. rewrite Hr. cbn [bind].
    split; [reflexivity|]. cbn. auto.
  - eexists. eexists. split; [reflexivity|]. split; [reflexivity|].
    rewrite Hr. cbn [bind]. split; [reflexivity|]. cbn. auto.
Qed.

End Session.

Lemma modify_nothing_exits_witness :
  let s := Cpio.modify_entry "etc" None None None (Some (B "x")) sample_session in
  Cpio.ended s = Exits 1 /\ Cpio.session s = sample_session /\ Cpio.written s = [].
Proof.
  apply (modify_nothing_exits "etc" (Some (B "x")) sample_session).
  intros entry H. vm_compute in H. injection H as <-. reflexivity.
Defined.


Lemma with_cpio_saves_edits_witness :
  let tasks := [Cpio.TaskDelete "etc/hosts"; Cpio.TaskDelete "etc/hosts"] in
  let compress := fun data : bytes => data in
  let absolute := fun p : string => p in
  let data := records [sample_dir_entry "etc" 7] ++ trailer_record in
  let s := Cpio.run_tasks tasks sample_session in
  let r := Cpio.with_cpio compress absolute (Cpio.run_tasks tasks) sample_session in
  Cpio.ended r = Cpio.ended s /\
  Cpio.written r
  = (if Cpio._changes_pending (Cpio.session s)
     then [(Cpio._path sample_session,
            if Cpio._use_gzip sample_session then compress data else data)]
     else []) /\
  Cpio._container (Cpio.session r) = Cpio._container (Cpio.session s) /\
  Cpio._changes_pending (Cpio.session r) = false /\
  (forall tk rest, tasks = tk :: rest ->
     (Cpio._changes_pending (Cpio.session s) = true <->
      Cpio.ended (Cpio.run_task tk sample_session) = Returns tt)).
Proof.
  apply (with_cpio_saves_edits (fun data : bytes => data) (fun p : string => p)
           [Cpio.TaskDelete "etc/hosts"; Cpio.TaskDelete "etc/hosts"]
           sample_session
           (records [sample_dir_entry "etc" 7] ++ trailer_record));
    vm_compute; reflexivity.
Defined.

Lemma save_changes_then_again_witness :
  let compress := fun data : bytes => data in
  let absolute := fun p : string => p in
  let s1 := Cpio.save_changes compress absolute (Some "/tmp/out.cpio"%string)
              sample_session in
  let s2 := Cpio.save_changes compress absolute None (Cpio.session s1) in
  Cpio.written s1
  = [("/tmp/out.cpio"%string,
      if Cpio._use_gzip sample_session
      then compress (file sample_archive) else file sample_archive)] /\
  Cpio._changes_pending (Cpio.session s1) = false /\
  Cpio._container (Cpio.session s1) = Cpio._container sample_session /\
  Cpio.written s2 = [] /\ Cpio.session s2 = Cpio.session s1 /\
  Cpio.ended s2 = Returns tt.
Proof.
  apply (save_changes_then_again (fun data : bytes => data) (fun p : string => p)
           (Some "/tmp/out.cpio"%string) sample_session (file sample_archive)).
  - vm_compute. reflexivity.
  - reflexivity.
  - discriminate.
Defined.

Lemma save_then_load_witness :
  exists payload cpio',
    Cpio.written (Cpio.save_changes (fun data : bytes => data) (fun p : string => p)
                    (Some "/tmp/out.cpio"%string) sample_session)
    = [("/tmp/out.cpio"%string, payload)] /\
    Cpio.ended (Cpio.save_changes (fun data : bytes => data) (fun p : string => p)
                  (Some "/tmp/out.cpio"%string) sample_session) = Returns tt /\
    Cpio.init (fun data : bytes => Ok data) (fun p : string => p)
      "/tmp/out.cpio" payload (Cpio._use_gzip sample_session) false None = Ok cpio' /\
    items (Cpio._container cpio') = items (Cpio._container sample_session) /\
    Cpio._changes_pending cpio' = false.
Proof.
  apply (save_then_load (fun data : bytes => data) (fun data : bytes => Ok data)
           (fun p : string => p) (fun data => eq_refl)
           (file sample_archive) sample_container [] sample_session
           "/tmp/out.cpio" false None).
  - vm_compute. reflexivity.
  - constructor.
  - reflexivity.
Defined.

Lemma edit_all_or_nothing_witness :
  let s := Cpio.run_task (Cpio.TaskDelete "etc/motd") sample_session in
  Cpio.written s = [] /\
  (Cpio.ended s = Returns tt -> Cpio._changes_pending (Cpio.session s) = true) /\
  (Cpio.ended s <> Returns tt -> Cpio.session s = sample_session) /\
  (forall code, Cpio.ended s = Exits code -> code = 1).
Proof. apply (edit_all_or_nothing (Cpio.TaskDelete "etc/motd") sample_session). Defined.
